(** * EAS backend: the request-admission pipeline of [backend/server.js]

    A shallow embedding of the Express application assembled in
    [src/backend/server.js]: the CORS origin callback, the two rate limiters,
    the ordered middleware chain with its inline responders, and the
    start-up / shutdown callbacks of [connectDB]. *)

From Stdlib Require Import ZArith Lia Ascii String.
From stdpp Require Import gmap strings list fin_maps sorting.

Local Open Scope string_scope.
Local Open Scope list_scope.
Local Open Scope Z_scope.

(** ** JavaScript values used by the file *)

(** A value that is either [undefined] or a string: a request header, or an
    entry of [process.env]. *)
Abbreviation jsstr := (option string).

(** JavaScript truthiness on [string | undefined]: [undefined] and the empty
    string are falsy, every other string is truthy. *)
Definition truthy (v : jsstr) : bool :=
  match v with
  | None => false
  | Some s => negb (String.eqb s "")
  end.

(** [a || b] on [string | undefined] with a string default. *)
Definition js_or (v : jsstr) (dflt : string) : string :=
  match v with
  | Some s => if String.eqb s "" then dflt else s
  | None => dflt
  end.

(** [process.env], restricted to the variables the file reads. *)
Record Env := {
  NODE_ENV : jsstr;
  FRONTEND_URL : jsstr;
  MONGODB_URI : jsstr;
  PORT : jsstr;
}.

(** ** CORS configuration (server.js, [corsOptions]) *)

Module Cors.

(** What the [origin] function hands to its callback:
    [callback(null, true)] or [callback(new Error(msg))]. *)
Inductive Verdict :=
| Pass
| Fail (msg : string).

(** [[ 'http://localhost:3000', 'http://localhost:5173',
       process.env.FRONTEND_URL ].filter(Boolean)] *)
Definition allowed (env : Env) : list jsstr :=
  filter (fun v => Is_true (truthy v))
         [Some "http://localhost:3000"; Some "http://localhost:5173"; FRONTEND_URL env].

(** [allowed.includes(origin)] for an [origin] that is a string. *)
Definition includes (l : list jsstr) (o : string) : bool :=
  bool_decide (Some o ∈ l).

(** [process.env.NODE_ENV !== 'production'] *)
Definition not_production (env : Env) : bool :=
  negb (bool_decide (NODE_ENV env = Some "production")).

(** The [origin] function of [corsOptions]. *)
Definition origin (env : Env) (o : jsstr) : Verdict :=
  if negb (truthy o) then Pass
  else
    match o with
    | None => Pass
    | Some s =>
        if includes (allowed env) s || not_production env then Pass
        else Fail "Not allowed by CORS"
    end.

(** The two scalar options next to the [origin] function. *)
Definition credentials : bool := true.
Definition optionsSuccessStatus : Z := 200.

(** The per-request decision: whether the origin is allowed and, when it
    is, whether credentialed exchange is granted (the middleware emits
    [Access-Control-Allow-Credentials] exactly when the [credentials]
    option is [true]). *)
Record Decision := {
  allow : bool;
  credentialsAllowed : bool;
  error : option string;
}.

Definition decide_request (env : Env) (o : jsstr) : Decision :=
  match origin env o with
  | Pass => {| allow := true; credentialsAllowed := credentials; error := None |}
  | Fail msg => {| allow := false; credentialsAllowed := false; error := Some msg |}
  end.

(** The allow-list read as a set of origins: the two development
    origins, and [FRONTEND_URL] when it is set. *)
Definition listed (env : Env) (s : string) : Prop :=
  s = "http://localhost:3000" \/ s = "http://localhost:5173" \/ FRONTEND_URL env = Some s.

Definition granted : Decision :=
  {| allow := true; credentialsAllowed := true; error := None |}.

Definition denied (msg : string) : Decision :=
  {| allow := false; credentialsAllowed := false; error := Some msg |}.

End Cors.

(** A production deployment with no [FRONTEND_URL]. *)
Definition production_env : Env :=
  {| NODE_ENV := Some "production"; FRONTEND_URL := None;
     MONGODB_URI := None; PORT := None |}.

(** A development machine: [NODE_ENV] is not set at all. *)
Definition bare_env : Env :=
  {| NODE_ENV := None; FRONTEND_URL := None; MONGODB_URI := None; PORT := None |}.

(** ** Paths and mount points (Express routing)

    [app.use(mount, fn)] runs [fn] for every request whose path is the mount
    point or lies below it; [app.get(route, fn)] wants the whole path.  Both
    ignore one trailing slash and, with the default settings used here,
    the case of ASCII letters. *)

Module Path.

Definition lower (c : ascii) : ascii :=
  let n := N_of_ascii c in
  if ((65 <=? n) && (n <=? 90))%N then ascii_of_N (n + 32) else c.

(** [strip_prefix p s] removes the prefix [p] from [s], comparing letters
    without case; [None] when [s] does not start with [p]. *)
Fixpoint strip_prefix (p s : string) : option string :=
  match p with
  | EmptyString => Some s
  | String a p' =>
      match s with
      | EmptyString => None
      | String b s' =>
          if Ascii.eqb (lower a) (lower b) then strip_prefix p' s' else None
      end
  end.

(** A mount point without its trailing slash: ['/api/'] is ['/api']. *)
Fixpoint mount_point (m : string) : string :=
  match m with
  | EmptyString => EmptyString
  | String c m' =>
      match m' with
      | EmptyString => if Ascii.eqb c "/" then EmptyString else m
      | _ => String c (mount_point m')
      end
  end.

(** After the mount point the path ends or goes on with a slash. *)
Definition boundary (rest : string) : bool :=
  match rest with
  | EmptyString => true
  | String c _ => Ascii.eqb c "/"
  end.

Definition mounted (mount path : string) : bool :=
  match strip_prefix (mount_point mount) path with
  | Some rest => boundary rest
  | None => false
  end.

Definition route_matches (route path : string) : bool :=
  match strip_prefix (mount_point route) path with
  | Some rest => String.eqb rest "" || String.eqb rest "/"
  | None => false
  end.

End Path.

(** ** Rate limiting (server.js, [limiter] and [authLimiter]) *)

Module RateLimit.

(** The options object handed to [rateLimit({...})]. *)
Record Options := {
  windowMs : Z;
  max : Z;
  message : string;
  skipSuccessfulRequests : bool;
}.

(** One counter per client key. *)
Record Window := {
  windowStart : Z;
  count : Z;
}.

Inductive Decision :=
| Proceed
| Reject (status : Z) (msg : string).

(** Modelled from the spec: the window has run out once its duration has
    elapsed since its start (the limiter's store is code of the
    [express-rate-limit] package, which is not part of the sources). *)
Definition expired (o : Options) (w : Window) (now : Z) : bool :=
  windowStart w + windowMs o <=? now.

(** Modelled from the spec: look up the client's window or create it
    lazily; an expired window is reset (count 0, start now). *)
Definition current (o : Options) (store : gmap string Window)
    (key : string) (now : Z) : Window :=
  match store !! key with
  | Some w => if expired o w now then {| windowStart := now; count := 0 |} else w
  | None => {| windowStart := now; count := 0 |}
  end.

(** Modelled from the spec: one request of client [key] at time [now]
    increments the count of its window; a count above [max] is rejected
    with status 429 and the configured message, anything else proceeds. *)
Definition hit (o : Options) (store : gmap string Window)
    (key : string) (now : Z) : gmap string Window * Decision :=
  let w := current o store key now in
  let w' := {| windowStart := windowStart w; count := count w + 1 |} in
  (<[key := w']> store,
   if max o <? count w' then Reject 429 (message o) else Proceed).

(** Modelled from the spec: the success-exempt policy gives the hit back
    once the response turns out successful, so that it does not count
    against the limit. *)
Definition forgive (store : gmap string Window) (key : string)
    : gmap string Window :=
  alter (fun w => {| windowStart := windowStart w; count := count w - 1 |})
        key store.

(** The number of requests counted against [key] at time [now]. *)
Definition used (o : Options) (store : gmap string Window)
    (key : string) (now : Z) : Z :=
  count (current o store key now).

End RateLimit.

(** [const limiter = rateLimit({...})] *)
Definition limiter : RateLimit.Options := {|
  RateLimit.windowMs := 15 * 60 * 1000;
  RateLimit.max := 100;
  RateLimit.message := "Too many requests from this IP, please try again later.";
  RateLimit.skipSuccessfulRequests := false;
|}.

(** [const authLimiter = rateLimit({...})] *)
Definition authLimiter : RateLimit.Options := {|
  RateLimit.windowMs := 15 * 60 * 1000;
  RateLimit.max := 5;
  RateLimit.message := "Too many login attempts, please try again later.";
  RateLimit.skipSuccessfulRequests := true;
|}.

(** ** Requests, responses and the application state *)

Inductive Method := GET | HEAD | POST | PUT | PATCH | DELETE | OPTIONS.

Record Request := {
  method : Method;
  path : string;          (* req.path: the URL without its query string *)
  originalUrl : string;   (* req.originalUrl *)
  ip : string;            (* the client key of the limiters *)
  originHeader : jsstr;   (* req.headers.origin *)
  arrival : Z;            (* the clock, in ms, while the request is handled *)
}.

(** The values the inline responders put into their JSON bodies.
    [JIsoDate ms] is [new Date(ms).toISOString()]. *)
Inductive JValue :=
| JBool (b : bool)
| JString (s : string)
| JIsoDate (ms : Z).

Inductive Body :=
| BJson (fields : list (string * JValue))
| BText (s : string)
| BEmpty
| BOther (tag : string).

Record Response := {
  status : Z;
  body : Body;
}.

(** A JavaScript [Error]. *)
Record Error := { err_message : string }.

(** The two limiter instances own one in-memory store each. *)
Record AppState := {
  generalStore : gmap string RateLimit.Window;
  authStore : gmap string RateLimit.Window;
}.

(** What a middleware does with a request: answer it, call [next()], or
    call [next(err)]. *)
Inductive Handled :=
| Respond (r : Response)
| Next
| NextErr (e : Error).

(** A callback registered on the response's [finish] event. *)
Definition Hook := Response -> AppState -> AppState.

Definition Handler := Request -> AppState -> AppState * list Hook * Handled.

(** The stages of the chain, named after the [app.use] / [app.get] calls. *)
Inductive Stage :=
| SHelmet
| SLimiter
| SAuthLimiter (mount : string)
| SMorgan
| SCors
| SJson
| SUrlencoded
| SStatic (mount : string)
| SRootRoute
| SRouter (mount : string)
| SHealthRoute
| SErrorHandler
| SNotFound.

(** One entry of the application's middleware stack. *)
Inductive Layer :=
| Use (s : Stage) (h : Handler)                       (* app.use(fn) *)
| UseAt (s : Stage) (mount : string) (h : Handler)    (* app.use(mount, fn) *)
| Get (s : Stage) (route : string) (h : Handler)      (* app.get(route, fn) *)
| UseError (s : Stage) (h : Error -> Handler).        (* app.use((err, ...) => ...) *)

Definition stage_of (l : Layer) : Stage :=
  match l with
  | Use s _ | UseAt s _ _ | Get s _ _ | UseError s _ => s
  end.

(** What happened to one request. *)
Record Outcome := {
  response : Response;
  final : AppState;
  stages : list Stage;
}.

(** ** The Express dispatch loop *)

Module Express.

Definition is_get (m : Method) : bool :=
  match m with GET | HEAD => true | _ => false end.

(** The handler a layer contributes for this request, if it takes part:
    ordinary layers are skipped while an error is pending, error layers
    are skipped otherwise. *)
Definition applies (l : Layer) (req : Request) (err : option Error)
    : option Handler :=
  match l, err with
  | Use _ h, None => Some h
  | UseAt _ m h, None => if Path.mounted m (path req) then Some h else None
  | Get _ r h, None =>
      if is_get (method req) && Path.route_matches r (path req)
      then Some h else None
  | UseError _ h, Some e => Some (h e)
  | _, _ => None
  end.

(** The answer when the stack is exhausted. *)
Definition finalhandler (err : option Error) : Response :=
  match err with
  | None => {| status := 404; body := BOther "finalhandler" |}
  | Some _ => {| status := 500; body := BOther "finalhandler" |}
  end.

Record Run := {
  run_response : Response;
  run_state : AppState;
  run_hooks : list Hook;
  run_stages : list Stage;
}.

Fixpoint run (ls : list Layer) (req : Request) (st : AppState)
    (err : option Error) (hooks : list Hook) (trace : list Stage) : Run :=
  match ls with
  | [] => {| run_response := finalhandler err; run_state := st;
             run_hooks := hooks; run_stages := trace |}
  | l :: ls' =>
      match applies l req err with
      | None => run ls' req st err hooks trace
      | Some h =>
          let '(st', hk, res) := h req st in
          let hooks' := hooks ++ hk in
          let trace' := trace ++ [stage_of l] in
          match res with
          | Respond r => {| run_response := r; run_state := st';
                            run_hooks := hooks'; run_stages := trace' |}
          | Next => run ls' req st' None hooks' trace'
          | NextErr e => run ls' req st' (Some e) hooks' trace'
          end
      end
  end.

(** The response is sent, then the [finish] callbacks fire in the order
    of their registration. *)
Definition finish (r : Run) : Outcome :=
  {| response := run_response r;
     final := fold_left (fun s (h : Hook) => h (run_response r) s)
                        (run_hooks r) (run_state r);
     stages := run_stages r |}.

Definition handle (ls : list Layer) (st : AppState) (req : Request) : Outcome :=
  finish (run ls req st None [] []).

(** A handler that leaves the stores alone and registers no callback. *)
Definition quiet (h : Handler) : Prop :=
  forall req st, fst (h req st) = (st, []).

Definition inert (l : Layer) : Prop :=
  match l with
  | Use _ h | UseAt _ _ h | Get _ _ h => quiet h
  | UseError _ h => forall e, quiet (h e)
  end.

End Express.

(** ** The application (server.js, lines 12-131) *)

Inductive Parser := JsonParser | UrlencodedParser.

(** Which limiter instance a middleware belongs to. *)
Inductive Instance := General | Auth.

Definition store_of (i : Instance) (st : AppState) : gmap string RateLimit.Window :=
  match i with
  | General => generalStore st
  | Auth => authStore st
  end.

Definition with_store (i : Instance) (s : gmap string RateLimit.Window)
    (st : AppState) : AppState :=
  match i with
  | General => {| generalStore := s; authStore := authStore st |}
  | Auth => {| generalStore := generalStore st; authStore := s |}
  end.

Section Server.

(** [process.env] after [dotenv.config()]. *)
Variable env : Env.

(** The modules the file requires but does not contain: the routers under
    [./routes], the files served by [express.static], the body parsers'
    verdict on the request body, [./middleware/errorHandler], and the
    limiter's notion of a successful response. *)
Variable downstream : Stage -> Request -> Handled.
Variable bodyParser : Parser -> Request -> option Error.
Variable errorHandler : Error -> Request -> Response.
Variable requestWasSuccessful : Response -> bool.

(** [helmet()] sets response headers and calls [next()]. *)
Definition helmet : Handler := fun _ st => (st, [], Next).

(** [morgan(...)] logs and calls [next()]; the format depends on
    [NODE_ENV], the control flow does not. *)
Definition morgan : Handler := fun _ st => (st, [], Next).

(** Modelled from the spec: the callback the success-exempt limiter leaves
    on the response (the package [express-rate-limit] is not part of the
    sources); when the response has finished successfully, the client's
    hit is given back. *)
Definition give_back (i : Instance) (req : Request) : Hook :=
  fun r s =>
    if requestWasSuccessful r
    then with_store i (RateLimit.forgive (store_of i s) (ip req)) s
    else s.

(** Modelled from the spec: the middleware [rateLimit(options)] builds
    (the package [express-rate-limit] is not part of the sources), on the
    store of instance [i]: count the request, answer it with the rejection
    when the count is above [max], pass it on otherwise. *)
Definition rateLimit (o : RateLimit.Options) (i : Instance) : Handler :=
  fun req st =>
    let '(store', d) := RateLimit.hit o (store_of i st) (ip req) (arrival req) in
    let st' := with_store i store' st in
    let hk : list Hook :=
      if RateLimit.skipSuccessfulRequests o then [give_back i req] else [] in
    (st', hk,
     match d with
     | RateLimit.Proceed => Next
     | RateLimit.Reject code msg => Respond {| status := code; body := BText msg |}
     end).

(** [cors(corsOptions)]: a failed origin check is passed on as an error;
    otherwise a preflight ([OPTIONS]) is answered at once with
    [optionsSuccessStatus], and any other request goes on. *)
Definition cors : Handler :=
  fun req st =>
    (st, [],
     match Cors.origin env (originHeader req) with
     | Cors.Fail msg => NextErr {| err_message := msg |}
     | Cors.Pass =>
         match method req with
         | OPTIONS => Respond {| status := Cors.optionsSuccessStatus; body := BEmpty |}
         | _ => Next
         end
     end).

(** [express.json(...)] and [express.urlencoded(...)]. *)
Definition parse (p : Parser) : Handler :=
  fun req st =>
    (st, [],
     match bodyParser p req with
     | Some e => NextErr e
     | None => Next
     end).

(** [express.static(...)] and the routers of [./routes]. *)
Definition collaborator (s : Stage) : Handler :=
  fun req st => (st, [], downstream s req).

(** [app.get('/', ...)] *)
Definition root : Handler :=
  fun req st =>
    (st, [],
     Respond {| status := 200;
                body := BJson [("success", JBool true);
                               ("message", JString "Backend Running Successfully 🚀");
                               ("timestamp", JIsoDate (arrival req))] |}).

(** [app.get('/api/health', ...)] *)
Definition health : Handler :=
  fun req st =>
    (st, [],
     Respond {| status := 200;
                body := BJson [("status", JString "OK");
                               ("message", JString "Server is running");
                               ("timestamp", JIsoDate (arrival req));
                               ("environment",
                                JString (js_or (NODE_ENV env) "development"))] |}).

(** [app.use(errorHandler)]: the handler of [./middleware/errorHandler]
    is taken to answer the request it is given. *)
Definition onError : Error -> Handler :=
  fun e req st => (st, [], Respond (errorHandler e req)).

(** The last [app.use((req, res) => ...)]. *)
Definition notFound : Handler :=
  fun req st =>
    (st, [],
     Respond {| status := 404;
                body := BJson [("success", JBool false);
                               ("error", JString "Route not found");
                               ("path", JString (originalUrl req))] |}).

(** The middleware stack, in the order of the calls on [app]. *)
Definition app : list Layer := [
  Use SHelmet helmet;
  UseAt SLimiter "/api/" (rateLimit limiter General);
  UseAt (SAuthLimiter "/api/auth/login") "/api/auth/login" (rateLimit authLimiter Auth);
  UseAt (SAuthLimiter "/api/auth/register") "/api/auth/register" (rateLimit authLimiter Auth);
  Use SMorgan morgan;
  Use SCors cors;
  Use SJson (parse JsonParser);
  Use SUrlencoded (parse UrlencodedParser);
  UseAt (SStatic "/api/uploads") "/api/uploads" (collaborator (SStatic "/api/uploads"));
  UseAt (SStatic "/api/uploads/leaves") "/api/uploads/leaves"
        (collaborator (SStatic "/api/uploads/leaves"));
  Get SRootRoute "/" root;
  UseAt (SRouter "/api/auth") "/api/auth" (collaborator (SRouter "/api/auth"));
  UseAt (SRouter "/api/attendance") "/api/attendance" (collaborator (SRouter "/api/attendance"));
  UseAt (SRouter "/api/dashboard") "/api/dashboard" (collaborator (SRouter "/api/dashboard"));
  UseAt (SRouter "/api/badges") "/api/badges" (collaborator (SRouter "/api/badges"));
  UseAt (SRouter "/api/profile") "/api/profile" (collaborator (SRouter "/api/profile"));
  UseAt (SRouter "/api/leaves") "/api/leaves" (collaborator (SRouter "/api/leaves"));
  UseAt (SRouter "/api/leave-types") "/api/leave-types" (collaborator (SRouter "/api/leave-types"));
  UseAt (SRouter "/api/notifications") "/api/notifications"
        (collaborator (SRouter "/api/notifications"));
  UseAt (SRouter "/api/leave-analytics") "/api/leave-analytics"
        (collaborator (SRouter "/api/leave-analytics"));
  Get SHealthRoute "/api/health" health;
  UseError SErrorHandler onError;
  Use SNotFound notFound
].

(** The stack below the limiters: from [morgan] to the 404 responder. *)
Definition after_limiters : list Layer := drop 4 app.

(** The stack below the body parsers: static files, routes, fallbacks. *)
Definition dispatch : list Layer := drop 8 app.

(** A request no admission stage holds up: the general limiter has quota
    left for it, CORS accepts its origin and it is no preflight, and the
    body parsers accept its body. *)
Definition let_through (st : AppState) (req : Request) : Prop :=
  (Path.mounted "/api/" (path req) = true ->
   RateLimit.used limiter (generalStore st) (ip req) (arrival req) < 100) /\
  Cors.origin env (originHeader req) = Cors.Pass /\
  method req <> OPTIONS /\
  bodyParser JsonParser req = None /\
  bodyParser UrlencodedParser req = None.

(** One request against the application. *)
Definition serve (st : AppState) (req : Request) : Outcome :=
  Express.handle app st req.

(** Requests handled one after the other. *)
Fixpoint serve_all (st : AppState) (reqs : list Request) : list Outcome :=
  match reqs with
  | [] => []
  | r :: rs => let o := serve st r in o :: serve_all (final o) rs
  end.

(** The stores once all of [reqs] have been handled. *)
Definition after_all (st : AppState) (reqs : list Request) : AppState :=
  fold_left (fun s r => final (serve s r)) reqs st.

End Server.

(** ** Vocabulary of the statements about the limiters *)

(** The paths the auth limiter is mounted on. *)
Definition auth_path (p : string) : bool :=
  Path.mounted "/api/auth/login" p || Path.mounted "/api/auth/register" p.

(** The mount through which the auth limiter sees a path. *)
Definition auth_stage (p : string) : Stage :=
  if Path.mounted "/api/auth/login" p
  then SAuthLimiter "/api/auth/login"
  else SAuthLimiter "/api/auth/register".

(** The rejection a limiter sends. *)
Definition too_many (o : RateLimit.Options) : Response :=
  {| status := 429; body := BText (RateLimit.message o) |}.

(** The quota a request finds used up when it arrives. *)
Definition general_used (st : AppState) (req : Request) : Z :=
  RateLimit.used limiter (generalStore st) (ip req) (arrival req).

Definition auth_used (st : AppState) (req : Request) : Z :=
  RateLimit.used authLimiter (authStore st) (ip req) (arrival req).

(** The stores after the general limiter, and after both limiters, have
    counted a request. *)
Definition counted_general (st : AppState) (req : Request) : AppState :=
  with_store General
    (fst (RateLimit.hit limiter (generalStore st) (ip req) (arrival req))) st.

Definition counted_auth (st : AppState) (req : Request) : AppState :=
  with_store Auth
    (fst (RateLimit.hit authLimiter (authStore st) (ip req) (arrival req)))
    (counted_general st req).

(** ** Vocabulary of the statements about the chain *)

(** The stack's stages in the order of the calls on [app]. *)
Definition pipeline_order : list Stage := [
  SHelmet;
  SLimiter;
  SAuthLimiter "/api/auth/login";
  SAuthLimiter "/api/auth/register";
  SMorgan;
  SCors;
  SJson;
  SUrlencoded;
  SStatic "/api/uploads";
  SStatic "/api/uploads/leaves";
  SRootRoute;
  SRouter "/api/auth";
  SRouter "/api/attendance";
  SRouter "/api/dashboard";
  SRouter "/api/badges";
  SRouter "/api/profile";
  SRouter "/api/leaves";
  SRouter "/api/leave-types";
  SRouter "/api/notifications";
  SRouter "/api/leave-analytics";
  SHealthRoute;
  SErrorHandler;
  SNotFound
].

(** The kind of work a stage does: security headers (0), rate limiting (1),
    logging (2), CORS (3), body parsing (4), static files and routes (5),
    the fallbacks (6). *)
Definition phase_of (s : Stage) : nat :=
  match s with
  | SHelmet => 0
  | SLimiter | SAuthLimiter _ => 1
  | SMorgan => 2
  | SCors => 3
  | SJson | SUrlencoded => 4
  | SStatic _ | SRootRoute | SRouter _ | SHealthRoute => 5
  | SErrorHandler | SNotFound => 6
  end.

(** [a] runs before [b]: its kind of work comes no later, and they are
    different stages. *)
Definition precedes (a b : Stage) : Prop :=
  (phase_of a <= phase_of b)%nat /\ a <> b.

(** The prefixes static files and routers are mounted on. *)
Definition route_mounts : list string := [
  "/api/uploads"; "/api/uploads/leaves";
  "/api/auth"; "/api/attendance"; "/api/dashboard"; "/api/badges";
  "/api/profile"; "/api/leaves"; "/api/leave-types"; "/api/notifications";
  "/api/leave-analytics"
].

(** The path is claimed by a mounted prefix or by one of the two inline
    routes. *)
Definition matches_route (p : string) : bool :=
  existsb (fun m => Path.mounted m p) route_mounts
  || Path.route_matches "/" p
  || Path.route_matches "/api/health" p.

(** [body.key] of a JSON body. *)
Fixpoint lookup_field (key : string) (fields : list (string * JValue)) : option JValue :=
  match fields with
  | [] => None
  | (k, v) :: rest => if String.eqb k key then Some v else lookup_field key rest
  end.

Definition field (key : string) (b : Body) : option JValue :=
  match b with
  | BJson fields => lookup_field key fields
  | _ => None
  end.

(** A request of client [k] under the [/api] prefix. *)
Definition from_client_api (k : string) (r : Request) : bool :=
  String.eqb (ip r) k && Path.mounted "/api/" (path r).

(** How many of the requests are requests of client [k] under [/api]. *)
Definition api_hits (k : string) (reqs : list Request) : nat :=
  length (List.filter (from_client_api k) reqs).

(** The client has no running window at time [t]: none at all, or one that
    has run out. *)
Definition fresh_for (o : RateLimit.Options) (store : gmap string RateLimit.Window)
    (k : string) (t : Z) : Prop :=
  match store !! k with
  | None => True
  | Some w => RateLimit.expired o w t = true
  end.

(** The general limiter called [next()]: the chain went on past it. *)
Definition passes_general (out : Outcome) : Prop :=
  exists s t, stages out = SHelmet :: SLimiter :: s :: t.

(** The general limiter answered the request itself. *)
Definition stopped_by_general (out : Outcome) : Prop :=
  response out = too_many limiter /\ stages out = [SHelmet; SLimiter].

(** The answer of the last layer of the stack. *)
Definition not_found (req : Request) : Response :=
  {| status := 404;
     body := BJson [("success", JBool false);
                    ("error", JString "Route not found");
                    ("path", JString (originalUrl req))] |}.

(** ** Stand-ins for the modules outside the file

    Concrete collaborators to run the application on concrete requests:
    routers and static directories that claim nothing, parsers that accept
    every body, an error handler that answers 500 with the error's message,
    and success read as a status below 400. *)

Definition no_routes : Stage -> Request -> Handled := fun _ _ => Next.

Definition lenient_parsers : Parser -> Request -> option Error := fun _ _ => None.

Definition plain_errorHandler : Error -> Request -> Response :=
  fun e _ => {| status := 500;
                body := BJson [("success", JBool false);
                               ("error", JString (err_message e))] |}.

Definition below_400 (r : Response) : bool := status r <? 400.

(** A login router that turns every attempt down with 401. *)
Definition failing_login : Stage -> Request -> Handled :=
  fun s _ =>
    match s with
    | SRouter "/api/auth" =>
        Respond {| status := 401;
                   body := BJson [("success", JBool false);
                                  ("error", JString "Invalid credentials")] |}
    | _ => Next
    end.

(** A login router that accepts every attempt. *)
Definition welcoming_login : Stage -> Request -> Handled :=
  fun s _ =>
    match s with
    | SRouter "/api/auth" =>
        Respond {| status := 200; body := BJson [("success", JBool true)] |}
    | _ => Next
    end.

Definition empty_state : AppState := {| generalStore := ∅; authStore := ∅ |}.

Definition request (m : Method) (p : string) (o : jsstr) (t : Z) : Request :=
  {| method := m; path := p; originalUrl := p; ip := "203.0.113.7";
     originHeader := o; arrival := t |}.

(** A health probe and a login attempt of the same client at time [t]. *)
Definition ping (t : Z) : Request := request GET "/api/health" None t.

Definition login (t : Z) : Request := request POST "/api/auth/login" None t.

(** ** Start-up and shutdown (server.js, [connectDB]) *)

Module Lifecycle.

(** What the runtime delivers to the callbacks [connectDB] installs. *)
Inductive Event :=
| ConnectResolved (host : string)   (* await mongoose.connect(...) returns *)
| ConnectRejected (msg : string)    (* await mongoose.connect(...) throws *)
| Listening                         (* the callback of app.listen *)
| ServerError (code : string)       (* server 'error' event, err.code *)
| ConnOpen                          (* a client connects *)
| ConnDone                          (* an in-flight request is finished *)
| Sigterm                           (* the process receives SIGTERM *)
| ListenerClosed                    (* the callbacks of server.close fire *)
| DbClosed.                         (* the callbacks of connection.close fire *)

(** The calls [connectDB] and its callbacks make. *)
Inductive Action :=
| MongooseConnect (uri : string)
| Log (line : string)
| AppListen (port : string)
| ServerClose
| DbClose
| Exit (code : Z).

Inductive Phase :=
| Connecting              (* suspended in [await mongoose.connect] *)
| Serving                 (* past [app.listen]; both handlers installed *)
| Killed                  (* ended by a signal nobody handles *)
| Exited (code : Z).      (* process.exit(code) *)

Record Proc := {
  phase : Phase;
  accepting : bool;       (* the listener takes new connections *)
  inflight : nat;         (* requests being handled *)
  closeWaiters : nat;     (* callbacks handed to server.close, not yet run *)
  dbWaiters : nat;        (* callbacks handed to connection.close, not yet run *)
}.

Inductive Entry :=
| Ev (e : Event)
| Act (a : Action).

Section WithEnv.

Variable env : Env.

Definition uri : string :=
  js_or (MONGODB_URI env) "mongodb://localhost:27017/employee_attendance".

(** [process.env.PORT || 5000] *)
Definition port : string := js_or (PORT env) "5000".

(** The call [connectDB()] up to its [await]. *)
Definition boot : Proc * list Action :=
  ({| phase := Connecting; accepting := false; inflight := 0;
      closeWaiters := 0; dbWaiters := 0 |},
   [MongooseConnect uri]).

Definition exited (p : Proc) (code : Z) : Proc :=
  {| phase := Exited code; accepting := false; inflight := inflight p;
     closeWaiters := closeWaiters p; dbWaiters := dbWaiters p |}.

(** The reaction to one event; [None] when the runtime cannot deliver
    the event in this state. *)
Definition step (p : Proc) (e : Event) : option (Proc * list Action) :=
  match phase p, e with
  | Connecting, ConnectResolved host =>
      Some ({| phase := Serving; accepting := true; inflight := 0;
               closeWaiters := 0; dbWaiters := 0 |},
            [Log "MongoDB Connected"; AppListen port])
  | Connecting, ConnectRejected msg =>
      Some (exited p 1, [Log "MongoDB connection error"; Exit 1])
  | Connecting, Sigterm =>
      Some ({| phase := Killed; accepting := false; inflight := inflight p;
               closeWaiters := closeWaiters p; dbWaiters := dbWaiters p |}, [])
  | Serving, Listening => Some (p, [Log "Server running"])
  | Serving, ServerError code =>
      if String.eqb code "EADDRINUSE"
      then Some (exited p 1, [Log "Port is already in use"; Exit 1])
      else Some (exited p 1, [Log "Server error"; Exit 1])
  | Serving, ConnOpen =>
      if accepting p
      then Some ({| phase := Serving; accepting := true;
                    inflight := S (inflight p);
                    closeWaiters := closeWaiters p; dbWaiters := dbWaiters p |}, [])
      else None
  | Serving, ConnDone =>
      match inflight p with
      | O => None
      | S n => Some ({| phase := Serving; accepting := accepting p; inflight := n;
                        closeWaiters := closeWaiters p; dbWaiters := dbWaiters p |}, [])
      end
  | Serving, Sigterm =>
      Some ({| phase := Serving; accepting := false; inflight := inflight p;
               closeWaiters := S (closeWaiters p); dbWaiters := dbWaiters p |},
            [ServerClose])
  | Serving, ListenerClosed =>
      match closeWaiters p, inflight p, accepting p with
      | S n, O, false =>
          Some ({| phase := Serving; accepting := false; inflight := 0;
                   closeWaiters := 0; dbWaiters := dbWaiters p + S n |},
                repeat DbClose (S n))
      | _, _, _ => None
      end
  | Serving, DbClosed =>
      match dbWaiters p with
      | O => None
      | S n => Some (exited p 0, [Exit 0])
      end
  | _, _ => None
  end.

(** The history of a run: every event followed by the calls it caused. *)
Fixpoint exec (p : Proc) (h : list Entry) (evs : list Event)
    : option (Proc * list Entry) :=
  match evs with
  | [] => Some (p, h)
  | e :: evs' =>
      match step p e with
      | None => None
      | Some (p', acts) => exec p' (h ++ Ev e :: map Act acts) evs'
      end
  end.

Definition start (evs : list Event) : option (Proc * list Entry) :=
  exec (fst boot) (map Act (snd boot)) evs.

End WithEnv.

End Lifecycle.

(** ** Vocabulary of the statements about start-up and shutdown *)

Module History.

Import Lifecycle.

(** Every occurrence of [x] in the history comes after something the part
    of the history before it satisfies. *)
Definition guarded (x : Entry) (Q : list Entry -> Prop) (h : list Entry) : Prop :=
  forall h1 h2, h = h1 ++ x :: h2 -> Q h1.

(** The entries [ys] have occurred, in this order. *)
Definition happened (ys : list Entry) (h : list Entry) : Prop :=
  ys `sublist_of` h.

(** The ports [app.listen] was called with. *)
Fixpoint listens (h : list Entry) : list string :=
  match h with
  | [] => []
  | Act (AppListen port) :: h' => port :: listens h'
  | _ :: h' => listens h'
  end.

(** The codes [process.exit] was called with. *)
Fixpoint exits (h : list Entry) : list Z :=
  match h with
  | [] => []
  | Act (Exit code) :: h' => code :: exits h'
  | _ :: h' => exits h'
  end.

(** What holds of a process and its history while [connectDB] and its
    callbacks run: the waiting callbacks have their cause in the history,
    every step of the shutdown has its predecessors before it, the port is
    bound at most once, to the configured port and after the database
    connection has succeeded, and an exit ends the history. *)
Record inv (env : Env) (p : Proc) (h : list Entry) : Prop := {
  inv_connecting :
    phase p = Connecting -> h = [Act (MongooseConnect (uri env))];
  inv_close_waiters :
    (0 < closeWaiters p)%nat -> happened [Ev Sigterm; Act ServerClose] h;
  inv_db_waiters :
    (0 < dbWaiters p)%nat ->
    happened [Ev Sigterm; Act ServerClose; Ev ListenerClosed; Act DbClose] h;
  inv_not_accepting :
    Act ServerClose ∈ h -> accepting p = false;
  inv_server_close :
    guarded (Act ServerClose) (happened [Ev Sigterm]) h;
  inv_listener_closed :
    guarded (Ev ListenerClosed) (happened [Ev Sigterm; Act ServerClose]) h;
  inv_db_close :
    guarded (Act DbClose)
            (happened [Ev Sigterm; Act ServerClose; Ev ListenerClosed]) h;
  inv_db_closed :
    guarded (Ev DbClosed)
            (happened [Ev Sigterm; Act ServerClose; Ev ListenerClosed; Act DbClose]) h;
  inv_exit_0 :
    guarded (Act (Exit 0))
            (happened [Ev Sigterm; Act ServerClose; Ev ListenerClosed;
                       Act DbClose; Ev DbClosed]) h;
  inv_no_open :
    forall h1 h2, h = h1 ++ Act ServerClose :: h2 -> Ev ConnOpen ∉ h2;
  inv_listens :
    match phase p with
    | Connecting | Killed => listens h = []
    | Serving => listens h = [port env]
    | Exited _ => listens h = [] \/ listens h = [port env]
    end;
  inv_listen_after_connect :
    forall port', guarded (Act (AppListen port'))
                          (fun a => exists host, Ev (ConnectResolved host) ∈ a) h;
  inv_exits :
    match phase p with
    | Exited code => exits h = [code] /\ exists h', h = h' ++ [Act (Exit code)]
    | _ => exits h = []
    end;
  inv_rejected :
    forall msg, Ev (ConnectRejected msg) ∈ h ->
                h = [Act (MongooseConnect (uri env)); Ev (ConnectRejected msg);
                     Act (Log "MongoDB connection error"); Act (Exit 1)] /\
                phase p = Exited 1;
  inv_server_error :
    forall code, Ev (ServerError code) ∈ h ->
                 listens h = [port env] /\ phase p = Exited 1;
}.

End History.

(** A run of the process: three requests are in flight when the signal
    arrives. *)
Definition graceful_run : list Lifecycle.Event :=
  [Lifecycle.ConnectResolved "localhost"; Lifecycle.Listening;
   Lifecycle.ConnOpen; Lifecycle.ConnOpen; Lifecycle.ConnOpen;
   Lifecycle.Sigterm;
   Lifecycle.ConnDone; Lifecycle.ConnDone; Lifecycle.ConnDone;
   Lifecycle.ListenerClosed; Lifecycle.DbClosed].

(** A start-up against a database that cannot be reached. *)
Definition failed_start : list Lifecycle.Event :=
  [Lifecycle.ConnectRejected "connect ECONNREFUSED 127.0.0.1:27017"].

(** A start-up on a port that is taken. *)
Definition port_in_use : list Lifecycle.Event :=
  [Lifecycle.ConnectResolved "localhost"; Lifecycle.ServerError "EADDRINUSE"].

(** The histories of these runs with no variable set in the environment. *)
Definition graceful_history : list Lifecycle.Entry :=
  let Ev := Lifecycle.Ev in
  let Act := Lifecycle.Act in
  [Act (Lifecycle.MongooseConnect "mongodb://localhost:27017/employee_attendance");
   Ev (Lifecycle.ConnectResolved "localhost");
   Act (Lifecycle.Log "MongoDB Connected");
   Act (Lifecycle.AppListen "5000");
   Ev Lifecycle.Listening;
   Act (Lifecycle.Log "Server running");
   Ev Lifecycle.ConnOpen; Ev Lifecycle.ConnOpen; Ev Lifecycle.ConnOpen;
   Ev Lifecycle.Sigterm;
   Act Lifecycle.ServerClose;
   Ev Lifecycle.ConnDone; Ev Lifecycle.ConnDone; Ev Lifecycle.ConnDone;
   Ev Lifecycle.ListenerClosed;
   Act Lifecycle.DbClose;
   Ev Lifecycle.DbClosed;
   Act (Lifecycle.Exit 0)].

Definition failed_history : list Lifecycle.Entry :=
  [Lifecycle.Act (Lifecycle.MongooseConnect "mongodb://localhost:27017/employee_attendance");
   Lifecycle.Ev (Lifecycle.ConnectRejected "connect ECONNREFUSED 127.0.0.1:27017");
   Lifecycle.Act (Lifecycle.Log "MongoDB connection error");
   Lifecycle.Act (Lifecycle.Exit 1)].

Definition port_in_use_history : list Lifecycle.Entry :=
  [Lifecycle.Act (Lifecycle.MongooseConnect "mongodb://localhost:27017/employee_attendance");
   Lifecycle.Ev (Lifecycle.ConnectResolved "localhost");
   Lifecycle.Act (Lifecycle.Log "MongoDB Connected");
   Lifecycle.Act (Lifecycle.AppListen "5000");
   Lifecycle.Ev (Lifecycle.ServerError "EADDRINUSE");
   Lifecycle.Act (Lifecycle.Log "Port is already in use");
   Lifecycle.Act (Lifecycle.Exit 1)].

(** ** Stand-ins of the further properties *)

(** A JSON parser that rejects every body. *)
Definition strict_json : Parser -> Request -> option Error :=
  fun p _ =>
    match p with
    | JsonParser => Some {| err_message := "Unexpected token } in JSON" |}
    | UrlencodedParser => None
    end.

(** A form parser that rejects every body. *)
Definition strict_urlencoded : Parser -> Request -> option Error :=
  fun p _ =>
    match p with
    | JsonParser => None
    | UrlencodedParser => Some {| err_message := "request entity too large" |}
    end.

(** The directory [uploads] holds every file asked for. *)
Definition uploads_has_all : Stage -> Request -> Handled :=
  fun s _ =>
    match s with
    | SStatic "/api/uploads" => Respond {| status := 200; body := BOther "file" |}
    | _ => Next
    end.

(** Only the directory [uploads/leaves] holds the files asked for. *)
Definition leaves_has_all : Stage -> Request -> Handled :=
  fun s _ =>
    match s with
    | SStatic "/api/uploads/leaves" => Respond {| status := 200; body := BOther "file" |}
    | _ => Next
    end.


(** A run of the process in which the signal is sent twice. *)
Definition impatient_run : list Lifecycle.Event :=
  [Lifecycle.ConnectResolved "localhost"; Lifecycle.Listening;
   Lifecycle.Sigterm; Lifecycle.Sigterm;
   Lifecycle.ListenerClosed; Lifecycle.DbClosed].

Definition impatient_history : list Lifecycle.Entry :=
  let Ev := Lifecycle.Ev in
  let Act := Lifecycle.Act in
  [Act (Lifecycle.MongooseConnect "mongodb://localhost:27017/employee_attendance");
   Ev (Lifecycle.ConnectResolved "localhost");
   Act (Lifecycle.Log "MongoDB Connected");
   Act (Lifecycle.AppListen "5000");
   Ev Lifecycle.Listening;
   Act (Lifecycle.Log "Server running");
   Ev Lifecycle.Sigterm;
   Act Lifecycle.ServerClose;
   Ev Lifecycle.Sigterm;
   Act Lifecycle.ServerClose;
   Ev Lifecycle.ListenerClosed;
   Act Lifecycle.DbClose;
   Act Lifecycle.DbClose;
   Ev Lifecycle.DbClosed;
   Act (Lifecycle.Exit 0)].

(** ** Vocabulary of the further properties *)

(** The format handed to the logger (server.js, lines 42-46):
    [process.env.NODE_ENV === 'development' ? morgan('dev') : morgan('combined')]. *)
Definition morgan_format (env : Env) : string :=
  if bool_decide (NODE_ENV env = Some "development") then "dev" else "combined".

(** The [environment] field of the health endpoint:
    [process.env.NODE_ENV || 'development']. *)
Definition reported_environment (env : Env) : string :=
  js_or (NODE_ENV env) "development".

(** [process.env] with another value of [FRONTEND_URL]. *)
Definition with_frontend (env : Env) (v : jsstr) : Env :=
  {| NODE_ENV := NODE_ENV env; FRONTEND_URL := v;
     MONGODB_URI := MONGODB_URI env; PORT := PORT env |}.

(** The prefixes the nine routers are mounted on (server.js, lines 99-107). *)
Definition router_mounts : list string := [
  "/api/auth"; "/api/attendance"; "/api/dashboard"; "/api/badges";
  "/api/profile"; "/api/leaves"; "/api/leave-types"; "/api/notifications";
  "/api/leave-analytics"
].

(** Two strings part ways: at the first place where they differ (letters
    compared without case) both still have a character. *)
Fixpoint diverge (a b : string) : bool :=
  match a, b with
  | String x a', String y b' =>
      if Ascii.eqb (Path.lower x) (Path.lower y) then diverge a' b' else true
  | _, _ => false
  end.

(** The stages a request runs through before the logger when no limiter
    stops it. *)
Definition limiter_stages (p : string) : list Stage :=
  SHelmet ::
  (if Path.mounted "/api/" p
   then SLimiter :: (if auth_path p then [auth_stage p] else [])
   else []).

(** No limiter stops the request: each limiter mounted on its path has
    quota left for it. *)
Definition within_quota (st : AppState) (req : Request) : Prop :=
  (Path.mounted "/api/" (path req) = true -> general_used st req < 100) /\
  (auth_path (path req) = true -> auth_used st req < 5).


(** How many entries of a history satisfy [f]. *)
Definition tally (f : Lifecycle.Entry -> bool) (h : list Lifecycle.Entry) : nat :=
  length (List.filter f h).

Definition is_open (x : Lifecycle.Entry) : bool :=
  match x with Lifecycle.Ev Lifecycle.ConnOpen => true | _ => false end.

Definition is_done (x : Lifecycle.Entry) : bool :=
  match x with Lifecycle.Ev Lifecycle.ConnDone => true | _ => false end.

Definition is_sigterm (x : Lifecycle.Entry) : bool :=
  match x with Lifecycle.Ev Lifecycle.Sigterm => true | _ => false end.

Definition is_server_close (x : Lifecycle.Entry) : bool :=
  match x with Lifecycle.Act Lifecycle.ServerClose => true | _ => false end.

Definition is_db_close (x : Lifecycle.Entry) : bool :=
  match x with Lifecycle.Act Lifecycle.DbClose => true | _ => false end.

(** What it means that stage [s] has answered the request with [r]: the
    limiters with their rejection, the CORS stage with the answer to a
    preflight, a static directory or a router with a response of its own,
    the inline routes and the last layer with their bodies, the error
    handler with its answer to an error raised on the way (by the CORS
    check, a body parser, a static directory or a router).  The stages that
    only pass requests on answer none. *)
Definition answered_by (env : Env) (downstream : Stage -> Request -> Handled)
    (bodyParser : Parser -> Request -> option Error)
    (errorHandler : Error -> Request -> Response)
    (req : Request) (s : Stage) (r : Response) : Prop :=
  match s with
  | SLimiter => r = too_many limiter
  | SAuthLimiter m => Path.mounted m (path req) = true /\ r = too_many authLimiter
  | SCors => method req = OPTIONS /\ r = {| status := 200; body := BEmpty |}
  | SStatic m | SRouter m =>
      Path.mounted m (path req) = true /\ downstream s req = Respond r
  | SRootRoute =>
      Express.is_get (method req) = true /\ forall st, root req st = (st, [], Respond r)
  | SHealthRoute =>
      Express.is_get (method req) = true /\
      forall st, health env req st = (st, [], Respond r)
  | SErrorHandler =>
      exists e, r = errorHandler e req /\
        ((e = {| err_message := "Not allowed by CORS" |} /\
          Cors.origin env (originHeader req) <> Cors.Pass) \/
         (exists p, bodyParser p req = Some e) \/
         (exists s', downstream s' req = NextErr e))
  | SNotFound => r = not_found req
  | SHelmet | SMorgan | SJson | SUrlencoded => False
  end.

(** * Properties *)

(** ** CORS *)

Section CorsFacts.

Variable env : Env.

Lemma truthy_Some (s : string) : truthy (Some s) = true <-> s <> "".
Proof.
  unfold truthy. destruct (String.eqb_spec s ""); simpl; split; congruence.
Qed.

Lemma includes_allowed (s : string) :
  s <> "" -> (Cors.includes (Cors.allowed env) s = true <-> Cors.listed env s).
Proof.
  intros Hs. unfold Cors.includes, Cors.allowed, Cors.listed.
  rewrite bool_decide_eq_true, list_elem_of_filter.
  rewrite !elem_of_cons, elem_of_nil.
  split.
  - intros [_ [H | [H | [H | []]]]]; [left | right; left | right; right]; congruence.
  - intros H. split.
    + apply Is_true_true. now apply truthy_Some.
    + destruct H as [-> | [-> | ->]]; auto.
Qed.

Lemma not_production_spec :
  Cors.not_production env = true <-> NODE_ENV env <> Some "production".
Proof.
  unfold Cors.not_production. rewrite negb_true_iff, bool_decide_eq_false. tauto.
Qed.

Lemma origin_falsy (o : jsstr) : truthy o = false -> Cors.origin env o = Cors.Pass.
Proof. intros H. unfold Cors.origin. now rewrite H. Qed.

Lemma origin_truthy (s : string) :
  s <> "" ->
  Cors.origin env (Some s) =
  if Cors.includes (Cors.allowed env) s || Cors.not_production env
  then Cors.Pass else Cors.Fail "Not allowed by CORS".
Proof.
  intros Hs. apply truthy_Some in Hs. unfold Cors.origin. now rewrite Hs.
Qed.

End CorsFacts.

(** C1, as stated, fails on a request whose [Origin] header is present but
    empty: in production, with an allow-list that does not hold the empty
    string, the claim denies the request, whereas [!origin] is true for the
    empty string and the code allows it. *)
Lemma C1_empty_origin_is_allowed :
  (Some "" : jsstr) <> None /\
  ~ Cors.listed production_env "" /\
  NODE_ENV production_env = Some "production" /\
  Cors.decide_request production_env (Some "") = Cors.granted.
Proof.
  repeat split; try discriminate.
  unfold Cors.listed. simpl. intros [H | [H | H]]; discriminate.
Qed.

(** C1 (amended): a request with no origin header, or with an empty one, is
    allowed; any other origin is allowed when it is in the allow-list
    (http://localhost:3000, http://localhost:5173, FRONTEND_URL when set) or
    the mode is not "production", and is otherwise denied with the error
    "Not allowed by CORS"; every allowed decision grants credentials. *)
Theorem C1_cors_decision (env : Env) (o : jsstr) :
  ((o = None \/ o = Some "") -> Cors.decide_request env o = Cors.granted) /\
  (forall s, o = Some s -> s <> "" ->
     Cors.listed env s \/ NODE_ENV env <> Some "production" ->
     Cors.decide_request env o = Cors.granted) /\
  (forall s, o = Some s -> s <> "" ->
     ~ Cors.listed env s -> NODE_ENV env = Some "production" ->
     Cors.decide_request env o = Cors.denied "Not allowed by CORS") /\
  (Cors.allow (Cors.decide_request env o) = true ->
     Cors.credentialsAllowed (Cors.decide_request env o) = true).
Proof.
  repeat split.
  - intros H. unfold Cors.decide_request.
    rewrite origin_falsy; [reflexivity | destruct H as [-> | ->]; reflexivity].
  - intros s -> Hs H. unfold Cors.decide_request. rewrite origin_truthy by assumption.
    assert (Cors.includes (Cors.allowed env) s || Cors.not_production env = true) as ->;
      [| reflexivity].
    apply orb_true_iff. destruct H as [H | H].
    + left. now apply includes_allowed.
    + right. now apply not_production_spec.
  - intros s -> Hs Hl Hp. unfold Cors.decide_request. rewrite origin_truthy by assumption.
    assert (Cors.includes (Cors.allowed env) s || Cors.not_production env = false) as ->;
      [| reflexivity].
    apply orb_false_iff. split.
    + apply not_true_iff_false. intros H. apply Hl. now apply includes_allowed.
    + apply not_true_iff_false. intros H. apply not_production_spec in H. contradiction.
  - unfold Cors.decide_request. destruct (Cors.origin env o); simpl; [reflexivity | discriminate].
Qed.

Example C1_listed_origin_in_production :
  Cors.decide_request production_env (Some "http://localhost:5173") = Cors.granted.
Proof. reflexivity. Qed.

Example C1_foreign_origin_in_production :
  Cors.decide_request production_env (Some "http://evil.example")
  = Cors.denied "Not allowed by CORS".
Proof. reflexivity. Qed.

Example C1_foreign_origin_in_development :
  Cors.decide_request bare_env (Some "http://evil.example") = Cors.granted.
Proof. reflexivity. Qed.

(** ** Mount points *)

Example mounted_api_health : Path.mounted "/api/" "/api/health" = true.
Proof. reflexivity. Qed.
Example mounted_api_bare : Path.mounted "/api/" "/API" = true.
Proof. reflexivity. Qed.
Example mounted_apix : Path.mounted "/api/" "/apix" = false.
Proof. reflexivity. Qed.
Example mounted_root : Path.mounted "/api/" "/" = false.
Proof. reflexivity. Qed.
Example route_root : Path.route_matches "/" "/" = true.
Proof. reflexivity. Qed.
Example route_root_other : Path.route_matches "/" "/x" = false.
Proof. reflexivity. Qed.
Example route_health_slash : Path.route_matches "/api/health" "/api/health/" = true.
Proof. reflexivity. Qed.
Example leaves_vs_leave_types : Path.mounted "/api/leaves" "/api/leave-types" = false.
Proof. reflexivity. Qed.

Section PathFacts.

Import Path.

Lemma strip_prefix_app (a b s : string) :
  strip_prefix (a ++ b)%string s =
  match strip_prefix a s with
  | Some r => strip_prefix b r
  | None => None
  end.
Proof.
  revert s. induction a as [| c a IH]; intros s; simpl; [reflexivity |].
  destruct s as [| d s]; [reflexivity |].
  destruct (Ascii.eqb (lower c) (lower d)); [apply IH | reflexivity].
Qed.

(** Only a slash compares equal to a slash. *)
Lemma lower_slash (c : ascii) :
  Ascii.eqb (lower "/") (lower c) = true -> c = "/"%char.
Proof.
  destruct c as [[] [] [] [] [] [] [] []]; vm_compute; intros H;
    first [discriminate H | reflexivity].
Qed.

(** A path below [a/b] is below [a]. *)
Lemma strip_prefix_below (a b p r : string) :
  strip_prefix (a ++ String "/" b)%string p = Some r ->
  exists r', strip_prefix a p = Some r' /\ boundary r' = true.
Proof.
  rewrite strip_prefix_app. destruct (strip_prefix a p) as [r' |]; [| discriminate].
  intros H. exists r'. split; [reflexivity |].
  destruct r' as [| c r']; [reflexivity |].
  change (strip_prefix (String "/" b) (String c r'))
    with (if Ascii.eqb (lower "/") (lower c) then strip_prefix b r' else None) in H.
  destruct (Ascii.eqb (lower "/") (lower c)) eqn:E; [| discriminate H].
  apply lower_slash in E. subst c. reflexivity.
Qed.

(** Two mount points that part ways after a common prefix have no path
    in common. *)
Lemma strip_prefix_fork (a b1 b2 p : string) (x y : ascii) :
  Ascii.eqb (lower x) (lower y) = false ->
  is_Some (strip_prefix (a ++ String x b1)%string p) ->
  strip_prefix (a ++ String y b2)%string p = None.
Proof.
  intros Hxy. rewrite !strip_prefix_app.
  destruct (strip_prefix a p) as [r |]; [| reflexivity].
  destruct r as [| c r]; [reflexivity |]. cbn [strip_prefix].
  destruct (Ascii.eqb (lower x) (lower c)) eqn:Ex; [| intros [? ?]; discriminate].
  intros _.
  destruct (Ascii.eqb (lower y) (lower c)) eqn:Ey; [| reflexivity].
  apply Ascii.eqb_eq in Ex, Ey. rewrite <- Ey in Ex.
  apply Ascii.eqb_neq in Hxy. contradiction.
Qed.

Lemma mounted_below (m a b p : string) :
  mount_point m = (a ++ String "/" b)%string ->
  forall m', mount_point m' = a ->
  mounted m p = true -> mounted m' p = true.
Proof.
  intros Hm m' Hm'. unfold mounted. rewrite Hm, Hm'.
  destruct (strip_prefix (a ++ String "/" b) p) as [r |] eqn:E; [| discriminate].
  intros _. apply strip_prefix_below in E as (r' & -> & Hb). exact Hb.
Qed.

Lemma mounted_fork (m1 m2 a b1 b2 p : string) (x y : ascii) :
  mount_point m1 = (a ++ String x b1)%string ->
  mount_point m2 = (a ++ String y b2)%string ->
  Ascii.eqb (lower x) (lower y) = false ->
  mounted m1 p = true -> mounted m2 p = false.
Proof.
  intros H1 H2 Hxy. unfold mounted. rewrite H1, H2.
  destruct (strip_prefix (a ++ String x b1) p) as [r |] eqn:E; [| discriminate].
  intros _. rewrite (strip_prefix_fork a b1 b2 p x y Hxy); [reflexivity |].
  rewrite E. eauto.
Qed.

Lemma login_under_api (p : string) :
  mounted "/api/auth/login" p = true -> mounted "/api/" p = true.
Proof. apply (mounted_below _ "/api" "auth/login"); reflexivity. Qed.

Lemma register_under_api (p : string) :
  mounted "/api/auth/register" p = true -> mounted "/api/" p = true.
Proof. apply (mounted_below _ "/api" "auth/register"); reflexivity. Qed.

Lemma login_under_auth (p : string) :
  mounted "/api/auth/login" p = true -> mounted "/api/auth" p = true.
Proof. apply (mounted_below _ "/api/auth" "login"); reflexivity. Qed.

Lemma register_under_auth (p : string) :
  mounted "/api/auth/register" p = true -> mounted "/api/auth" p = true.
Proof. apply (mounted_below _ "/api/auth" "register"); reflexivity. Qed.

Lemma login_not_register (p : string) :
  mounted "/api/auth/login" p = true -> mounted "/api/auth/register" p = false.
Proof.
  apply (mounted_fork _ _ "/api/auth/" "ogin" "egister" p "l" "r"); reflexivity.
Qed.

Lemma register_not_login (p : string) :
  mounted "/api/auth/register" p = true -> mounted "/api/auth/login" p = false.
Proof.
  apply (mounted_fork _ _ "/api/auth/" "egister" "ogin" p "r" "l"); reflexivity.
Qed.

End PathFacts.

(** ** The dispatch loop *)

Section ExpressFacts.

Import Express.

Lemma run_skip (l : Layer) ls req st err hooks trace :
  applies l req err = None ->
  run (l :: ls) req st err hooks trace = run ls req st err hooks trace.
Proof. intros H. simpl. now rewrite H. Qed.

Lemma run_use_at_skip s m h ls req st hooks trace :
  Path.mounted m (path req) = false ->
  run (UseAt s m h :: ls) req st None hooks trace = run ls req st None hooks trace.
Proof. intros H. apply run_skip. simpl. now rewrite H. Qed.

Lemma run_use_at s m h ls req st hooks trace :
  Path.mounted m (path req) = true ->
  run (UseAt s m h :: ls) req st None hooks trace =
  run (Use s h :: ls) req st None hooks trace.
Proof. intros H. simpl. now rewrite H. Qed.

Lemma run_use_next s h ls req st st' hk hooks trace :
  h req st = (st', hk, Next) ->
  run (Use s h :: ls) req st None hooks trace =
  run ls req st' None (hooks ++ hk) (trace ++ [s]).
Proof. intros H. simpl. now rewrite H. Qed.

Lemma run_use_respond s h ls req st st' hk r hooks trace :
  h req st = (st', hk, Respond r) ->
  run (Use s h :: ls) req st None hooks trace =
  {| run_response := r; run_state := st';
     run_hooks := hooks ++ hk; run_stages := trace ++ [s] |}.
Proof. intros H. simpl. now rewrite H. Qed.

Lemma run_get_skip s r h ls req st hooks trace :
  is_get (method req) && Path.route_matches r (path req) = false ->
  run (Get s r h :: ls) req st None hooks trace = run ls req st None hooks trace.
Proof. intros H. apply run_skip. simpl. now rewrite H. Qed.

Lemma run_get s r h ls req st hooks trace :
  is_get (method req) && Path.route_matches r (path req) = true ->
  run (Get s r h :: ls) req st None hooks trace =
  run (Use s h :: ls) req st None hooks trace.
Proof. intros H. simpl. now rewrite H. Qed.

(** The stages a request runs through are picked from the stack in the
    order of the stack. *)
Lemma run_stages_sublist ls req st err hooks trace :
  exists t, run_stages (run ls req st err hooks trace) = trace ++ t /\
            t `sublist_of` map stage_of ls.
Proof.
  revert st err hooks trace.
  induction ls as [| l ls IH]; intros st err hooks trace.
  - exists []. simpl. rewrite app_nil_r. split; [reflexivity | constructor].
  - simpl. destruct (applies l req err) as [h |].
    + destruct (h req st) as [[st' hk] res]. destruct res as [r | | e].
      * exists [stage_of l]. simpl. split; [reflexivity |].
        apply sublist_skip, sublist_nil_l.
      * destruct (IH st' None (hooks ++ hk) (trace ++ [stage_of l])) as (t & Ht & Hs).
        exists (stage_of l :: t). rewrite Ht, <- app_assoc. split; [reflexivity |].
        now apply sublist_skip.
      * destruct (IH st' (Some e) (hooks ++ hk) (trace ++ [stage_of l])) as (t & Ht & Hs).
        exists (stage_of l :: t). rewrite Ht, <- app_assoc. split; [reflexivity |].
        now apply sublist_skip.
    + destruct (IH st err hooks trace) as (t & Ht & Hs).
      exists t. split; [exact Ht | now apply sublist_cons].
Qed.

(** Inert layers hand the stores and the callbacks on as they got them. *)
Lemma run_inert ls req st err hooks trace :
  Forall inert ls ->
  run_state (run ls req st err hooks trace) = st /\
  run_hooks (run ls req st err hooks trace) = hooks.
Proof.
  intros Hall. revert err hooks trace.
  induction Hall as [| l ls Hl Hall IH]; intros err hooks trace; [now split |].
  simpl. destruct (applies l req err) as [h |] eqn:Ha; [| apply IH].
  assert (quiet h) as Hq.
  { destruct l; simpl in Ha, Hl; destruct err; try discriminate.
    - now injection Ha as <-.
    - destruct (Path.mounted mount (path req)); [now injection Ha as <- | discriminate].
    - destruct (is_get (method req) && Path.route_matches route (path req));
        [now injection Ha as <- | discriminate].
    - injection Ha as <-. apply Hl. }
  specialize (Hq req st). destruct (h req st) as [[st' hk] res]. simpl in Hq.
  injection Hq as -> ->. rewrite app_nil_r.
  destruct res; [now split | apply IH | apply IH].
Qed.

End ExpressFacts.

(** ** The limiter's store *)

Section RateLimitFacts.

Import RateLimit.

Variable o : Options.

Lemma hit_store (s : gmap string Window) k t :
  fst (hit o s k t) =
  <[k := {| windowStart := windowStart (current o s k t);
            count := used o s k t + 1 |}]> s.
Proof. reflexivity. Qed.

Lemma hit_decision (s : gmap string Window) k t :
  snd (hit o s k t) =
  if max o <? used o s k t + 1 then Reject 429 (message o) else Proceed.
Proof. reflexivity. Qed.

Lemma hit_other (s : gmap string Window) k k' t :
  k <> k' -> fst (hit o s k t) !! k' = s !! k'.
Proof. intros H. rewrite hit_store. now apply lookup_insert_ne. Qed.

(** A window that has not run out is the current one. *)
Lemma current_live (s : gmap string Window) k t w :
  s !! k = Some w -> t < windowStart w + windowMs o -> current o s k t = w.
Proof.
  intros Hw Ht. unfold current, expired. rewrite Hw.
  destruct (Z.leb_spec (windowStart w + windowMs o) t); [lia | reflexivity].
Qed.

(** The current window has not run out, whatever the store holds. *)
Lemma current_not_expired (s : gmap string Window) k t :
  0 < windowMs o -> t < windowStart (current o s k t) + windowMs o.
Proof.
  intros HW. unfold current, expired.
  destruct (s !! k) as [w |]; simpl; [| lia].
  destruct (Z.leb_spec (windowStart w + windowMs o) t); simpl; lia.
Qed.

(** After a hit the client's window is the current one, with one request
    more, for as long as that window lasts. *)
Lemma hit_current (s : gmap string Window) k t t' :
  t' < windowStart (current o s k t) + windowMs o ->
  current o (fst (hit o s k t)) k t' =
  {| windowStart := windowStart (current o s k t); count := used o s k t + 1 |}.
Proof.
  intros Ht. apply current_live; [| exact Ht].
  rewrite hit_store. apply lookup_insert_eq.
Qed.

Lemma used_after_hit (s : gmap string Window) k t :
  0 < windowMs o -> used o (fst (hit o s k t)) k t = used o s k t + 1.
Proof.
  intros HW. unfold used at 1. rewrite hit_current; [reflexivity |].
  now apply current_not_expired.
Qed.

(** Giving a hit back restores the window the hit started from. *)
Lemma forgive_hit (s : gmap string Window) k t :
  forgive (fst (hit o s k t)) k = <[k := current o s k t]> s.
Proof.
  rewrite hit_store. unfold forgive.
  rewrite alter_insert_eq. simpl. f_equal.
  unfold used. destruct (current o s k t) as [a c]. simpl. f_equal. lia.
Qed.

Lemma used_after_forgive (s : gmap string Window) k t :
  0 < windowMs o -> used o (forgive (fst (hit o s k t)) k) k t = used o s k t.
Proof.
  intros HW. rewrite forgive_hit. unfold used at 1.
  rewrite (current_live _ k t (current o s k t)); [reflexivity | apply lookup_insert_eq |].
  now apply current_not_expired.
Qed.

End RateLimitFacts.

(** ** The order of the stages *)

Section OrderFacts.

Lemma sublist_sorted {A} (R : A -> A -> Prop) (l k : list A) :
  l `sublist_of` k -> StronglySorted R k -> StronglySorted R l.
Proof.
  induction 1 as [| x l k Hs IH | x l k Hs IH]; intros Hk.
  - constructor.
  - apply StronglySorted_inv in Hk as [Hk Hx]. constructor; [now apply IH |].
    rewrite Forall_forall in Hx |- *. intros y Hy.
    apply Hx. eapply elem_of_sublist; eassumption.
  - apply StronglySorted_inv in Hk as [Hk _]. now apply IH.
Qed.

Lemma sorted_lookup {A} (R : A -> A -> Prop) (l : list A) :
  StronglySorted R l ->
  forall (i j : nat) a b, (i < j)%nat -> l !! i = Some a -> l !! j = Some b -> R a b.
Proof.
  induction 1 as [| x l Hl IH Hx]; intros i j a b Hij Hi Hj.
  - discriminate.
  - destruct j as [| j]; [lia |]. simpl in Hj.
    destruct i as [| i]; simpl in Hi.
    + injection Hi as <-. rewrite Forall_forall in Hx.
      apply Hx. eapply list_elem_of_lookup_2; eassumption.
    + apply (IH i j); [lia | assumption | assumption].
Qed.

Lemma pipeline_order_sorted : StronglySorted precedes pipeline_order.
Proof.
  unfold pipeline_order.
  repeat (apply SSorted_cons; [| repeat constructor; simpl; first [lia | discriminate]]).
  constructor.
Qed.

End OrderFacts.

(** ** One request against the application *)

Section ServerFacts.

Import Express.

Variable env : Env.
Variable downstream : Stage -> Request -> Handled.
Variable bodyParser : Parser -> Request -> option Error.
Variable errorHandler : Error -> Request -> Response.
Variable requestWasSuccessful : Response -> bool.

Local Abbreviation app' := (app env downstream bodyParser errorHandler requestWasSuccessful).
Local Abbreviation below := (after_limiters env downstream bodyParser errorHandler requestWasSuccessful).
Local Abbreviation serve' := (serve env downstream bodyParser errorHandler requestWasSuccessful).
Local Abbreviation give_back' := (give_back requestWasSuccessful).
Local Abbreviation rateLimit' := (rateLimit requestWasSuccessful).

Lemma below_inert : Forall inert below.
Proof. repeat constructor. Qed.

Lemma app_layers :
  app' = Use SHelmet helmet
         :: UseAt SLimiter "/api/" (rateLimit' limiter General)
         :: UseAt (SAuthLimiter "/api/auth/login") "/api/auth/login" (rateLimit' authLimiter Auth)
         :: UseAt (SAuthLimiter "/api/auth/register") "/api/auth/register"
                  (rateLimit' authLimiter Auth)
         :: below.
Proof. reflexivity. Qed.

Lemma not_api_not_auth (p : string) :
  Path.mounted "/api/" p = false ->
  Path.mounted "/api/auth/login" p = false /\ Path.mounted "/api/auth/register" p = false.
Proof.
  intros H. split; apply not_true_iff_false; intros H'.
  - apply login_under_api in H'. congruence.
  - apply register_under_api in H'. congruence.
Qed.

Lemma rateLimit_eq (o : RateLimit.Options) (i : Instance) req st :
  rateLimit' o i req st =
  (with_store i (fst (RateLimit.hit o (store_of i st) (ip req) (arrival req))) st,
   (if RateLimit.skipSuccessfulRequests o then [give_back' i req] else []),
   match snd (RateLimit.hit o (store_of i st) (ip req) (arrival req)) with
   | RateLimit.Proceed => Next
   | RateLimit.Reject c m => Respond {| status := c; body := BText m |}
   end).
Proof.
  unfold rateLimit.
  destruct (RateLimit.hit o (store_of i st) (ip req) (arrival req)). reflexivity.
Qed.

(** The limiters as one function of the request: what the first four
    layers of the stack do before the rest of it runs. *)
Lemma run_app (st : AppState) (req : Request) :
  run app' req st None [] [] =
  if Path.mounted "/api/" (path req) then
    let g := RateLimit.hit limiter (generalStore st) (ip req) (arrival req) in
    let st1 := with_store General (fst g) st in
    match snd g with
    | RateLimit.Reject c m =>
        {| run_response := {| status := c; body := BText m |}; run_state := st1;
           run_hooks := []; run_stages := [SHelmet; SLimiter] |}
    | RateLimit.Proceed =>
        if auth_path (path req) then
          let a := RateLimit.hit authLimiter (authStore st1) (ip req) (arrival req) in
          let st2 := with_store Auth (fst a) st1 in
          match snd a with
          | RateLimit.Reject c m =>
              {| run_response := {| status := c; body := BText m |}; run_state := st2;
                 run_hooks := [give_back' Auth req];
                 run_stages := [SHelmet; SLimiter; auth_stage (path req)] |}
          | RateLimit.Proceed =>
              run below req st2 None [give_back' Auth req]
                  [SHelmet; SLimiter; auth_stage (path req)]
          end
        else run below req st1 None [] [SHelmet; SLimiter]
    end
  else run below req st None [] [SHelmet].
Proof.
  rewrite app_layers.
  rewrite (run_use_next SHelmet helmet _ req st st []) by reflexivity.
  destruct (Path.mounted "/api/" (path req)) eqn:Hapi.
  - rewrite run_use_at by assumption.
    pose proof (rateLimit_eq limiter General req st) as Hg.
    change (store_of General st) with (generalStore st) in Hg.
    cbn zeta.
    destruct (RateLimit.hit limiter (generalStore st) (ip req) (arrival req))
      as [gs gd].
    cbn [fst snd limiter RateLimit.skipSuccessfulRequests] in Hg |- *.
    destruct gd as [| c m].
    2:{ rewrite (run_use_respond _ _ _ _ _ _ _ _ _ _ Hg). reflexivity. }
    rewrite (run_use_next _ _ _ _ _ _ _ _ _ Hg). clear Hg.
    pose proof (rateLimit_eq authLimiter Auth req (with_store General gs st)) as Ha.
    change (store_of Auth (with_store General gs st))
      with (authStore (with_store General gs st)) in Ha.
    destruct (RateLimit.hit authLimiter (authStore (with_store General gs st))
                            (ip req) (arrival req)) as [as_ ad].
    cbn [fst snd authLimiter RateLimit.skipSuccessfulRequests] in Ha |- *.
    unfold auth_path, auth_stage.
    destruct (Path.mounted "/api/auth/login" (path req)) eqn:Hlogin.
    + rewrite run_use_at by assumption. cbn [orb].
      destruct ad as [| c m].
      * rewrite (run_use_next _ _ _ _ _ _ _ _ _ Ha).
        rewrite run_use_at_skip by (now apply login_not_register). reflexivity.
      * rewrite (run_use_respond _ _ _ _ _ _ _ _ _ _ Ha). reflexivity.
    + rewrite run_use_at_skip by assumption. cbn [orb].
      destruct (Path.mounted "/api/auth/register" (path req)) eqn:Hreg.
      * rewrite run_use_at by assumption.
        destruct ad as [| c m].
        -- rewrite (run_use_next _ _ _ _ _ _ _ _ _ Ha). reflexivity.
        -- rewrite (run_use_respond _ _ _ _ _ _ _ _ _ _ Ha). reflexivity.
      * rewrite run_use_at_skip by assumption. reflexivity.
  - destruct (not_api_not_auth _ Hapi) as [Hl Hr].
    rewrite !run_use_at_skip by assumption. reflexivity.
Qed.

Lemma general_decision (st : AppState) (req : Request) :
  snd (RateLimit.hit limiter (generalStore st) (ip req) (arrival req)) =
  if 100 <=? general_used st req
  then RateLimit.Reject 429 (RateLimit.message limiter) else RateLimit.Proceed.
Proof.
  rewrite hit_decision. fold (general_used st req). cbn [limiter RateLimit.max].
  destruct (Z.ltb_spec 100 (general_used st req + 1));
    destruct (Z.leb_spec 100 (general_used st req)); first [reflexivity | lia].
Qed.

Lemma auth_decision (st : AppState) (req : Request) :
  snd (RateLimit.hit authLimiter (authStore (counted_general st req))
                     (ip req) (arrival req)) =
  if 5 <=? auth_used st req
  then RateLimit.Reject 429 (RateLimit.message authLimiter) else RateLimit.Proceed.
Proof.
  rewrite hit_decision.
  change (authStore (counted_general st req)) with (authStore st).
  fold (auth_used st req). cbn [authLimiter RateLimit.max].
  destruct (Z.ltb_spec 5 (auth_used st req + 1));
    destruct (Z.leb_spec 5 (auth_used st req)); first [reflexivity | lia].
Qed.

(** Below the limiters the chain starts with the logger and never touches
    the stores. *)
Lemma run_below (st : AppState) (req : Request) hooks trace :
  run_state (run below req st None hooks trace) = st /\
  run_hooks (run below req st None hooks trace) = hooks /\
  exists t, run_stages (run below req st None hooks trace) = trace ++ SMorgan :: t.
Proof.
  destruct (run_inert below req st None hooks trace below_inert) as [Hs Hh].
  repeat split; [exact Hs | exact Hh |].
  unfold after_limiters. cbn [drop app].
  rewrite (run_use_next SMorgan morgan _ req st st []) by reflexivity.
  match goal with
  | |- context [run ?ls req st None ?h ?tr] =>
      destruct (run_stages_sublist ls req st None h tr) as (t & Ht & _)
  end.
  exists t. rewrite Ht, <- app_assoc. reflexivity.
Qed.

(** A path outside [/api] meets no limiter. *)
Lemma serve_outside (st : AppState) (req : Request) :
  Path.mounted "/api/" (path req) = false ->
  final (serve' st req) = st /\
  exists t, stages (serve' st req) = SHelmet :: SMorgan :: t.
Proof.
  intros Hapi. unfold serve, handle, finish. rewrite run_app, Hapi.
  destruct (run_below st req [] [SHelmet]) as (Hs & Hh & t & Ht).
  cbn [final stages]. rewrite Hs, Hh, Ht. split; [reflexivity | eauto].
Qed.

(** The general limiter is out of quota. *)
Lemma serve_general_reject (st : AppState) (req : Request) :
  Path.mounted "/api/" (path req) = true ->
  100 <= general_used st req ->
  serve' st req = {| response := too_many limiter;
                     final := counted_general st req;
                     stages := [SHelmet; SLimiter] |}.
Proof.
  intros Hapi Hu. unfold serve, handle, finish. rewrite run_app, Hapi. cbn zeta.
  rewrite general_decision.
  destruct (Z.leb_spec 100 (general_used st req)); [reflexivity | lia].
Qed.

(** The general limiter lets the request through, no auth limiter on the
    way. *)
Lemma serve_general_pass (st : AppState) (req : Request) :
  Path.mounted "/api/" (path req) = true ->
  general_used st req < 100 ->
  auth_path (path req) = false ->
  final (serve' st req) = counted_general st req /\
  exists t, stages (serve' st req) = SHelmet :: SLimiter :: SMorgan :: t.
Proof.
  intros Hapi Hu Hauth. unfold serve, handle, finish. rewrite run_app, Hapi. cbn zeta.
  rewrite general_decision, Hauth.
  destruct (Z.leb_spec 100 (general_used st req)); [lia |].
  fold (counted_general st req).
  destruct (run_below (counted_general st req) req [] [SHelmet; SLimiter])
    as (Hs & Hh & t & Ht).
  cbn [final stages]. rewrite Hs, Hh, Ht. split; [reflexivity | eauto].
Qed.

Lemma auth_path_api (p : string) :
  auth_path p = true -> Path.mounted "/api/" p = true.
Proof.
  unfold auth_path. intros [H | H]%orb_true_iff;
    [now apply login_under_api | now apply register_under_api].
Qed.

(** The auth limiter is out of quota. *)
Lemma serve_auth_reject (st : AppState) (req : Request) :
  auth_path (path req) = true ->
  general_used st req < 100 ->
  5 <= auth_used st req ->
  serve' st req = {| response := too_many authLimiter;
                     final := give_back' Auth req (too_many authLimiter)
                                         (counted_auth st req);
                     stages := [SHelmet; SLimiter; auth_stage (path req)] |}.
Proof.
  intros Hauth Hu Ha. unfold serve, handle, finish.
  rewrite run_app, (auth_path_api _ Hauth), Hauth. cbn zeta.
  rewrite general_decision.
  destruct (Z.leb_spec 100 (general_used st req)); [lia |].
  fold (counted_general st req). rewrite auth_decision.
  destruct (Z.leb_spec 5 (auth_used st req)); [reflexivity | lia].
Qed.

(** Both limiters let the request through. *)
Lemma serve_auth_pass (st : AppState) (req : Request) :
  auth_path (path req) = true ->
  general_used st req < 100 ->
  auth_used st req < 5 ->
  final (serve' st req) =
    give_back' Auth req (response (serve' st req)) (counted_auth st req) /\
  exists t, stages (serve' st req) =
            SHelmet :: SLimiter :: auth_stage (path req) :: SMorgan :: t.
Proof.
  intros Hauth Hu Ha. unfold serve, handle, finish.
  rewrite run_app, (auth_path_api _ Hauth), Hauth. cbn zeta.
  rewrite general_decision.
  destruct (Z.leb_spec 100 (general_used st req)); [lia |].
  fold (counted_general st req). rewrite auth_decision.
  destruct (Z.leb_spec 5 (auth_used st req)); [lia |].
  change (with_store Auth _ (counted_general st req)) with (counted_auth st req).
  destruct (run_below (counted_auth st req) req [give_back' Auth req]
                      [SHelmet; SLimiter; auth_stage (path req)])
    as (Hs & Hh & t & Ht).
  cbn [final stages response]. rewrite Hs, Hh, Ht. split; [reflexivity | eauto].
Qed.

Lemma serve_stages_sublist (st : AppState) (req : Request) :
  stages (serve' st req) `sublist_of` pipeline_order.
Proof.
  destruct (run_stages_sublist app' req st None [] []) as (t & Ht & Hs).
  unfold serve, handle, finish. cbn [stages]. rewrite Ht. exact Hs.
Qed.

(** C6: for every request the stages that run are taken from the stack in
    its fixed order, each at most once: security headers, then rate
    limiting, then logging, then CORS, then body parsing, then static files
    and routes (then the fallbacks); of two stages that run, the earlier
    one never belongs to a later kind of work; and the chain always starts
    with the security headers. *)
Theorem C6_stage_order (st : AppState) (req : Request) :
  stages (serve' st req) `sublist_of` pipeline_order /\
  (forall (i j : nat) a b,
     (i < j)%nat ->
     stages (serve' st req) !! i = Some a ->
     stages (serve' st req) !! j = Some b ->
     (phase_of a <= phase_of b)%nat /\ a <> b) /\
  (exists t, stages (serve' st req) = SHelmet :: t).
Proof.
  split; [apply serve_stages_sublist |]. split.
  - intros i j a b Hij Hi Hj.
    apply (sorted_lookup precedes (stages (serve' st req))
             (sublist_sorted _ _ _ (serve_stages_sublist st req) pipeline_order_sorted)
             i j a b Hij Hi Hj).
  - unfold serve, handle, finish. cbn [stages].
    rewrite app_layers.
    rewrite (run_use_next SHelmet helmet _ req st st []) by reflexivity.
    match goal with
    | |- context [run ?ls req st None ?h ?tr] =>
        destruct (run_stages_sublist ls req st None h tr) as (t & Ht & _)
    end.
    exists t. rewrite Ht. reflexivity.
Qed.

Lemma give_back_general (req : Request) (r : Response) (s : AppState) :
  generalStore (give_back' Auth req r s) = generalStore s.
Proof. unfold give_back. destruct (requestWasSuccessful r); reflexivity. Qed.

(** Under [/api] the general limiter counts the request, whatever happens
    to it afterwards. *)
Lemma serve_api (st : AppState) (req : Request) :
  Path.mounted "/api/" (path req) = true ->
  generalStore (final (serve' st req)) = generalStore (counted_general st req) /\
  exists t, stages (serve' st req) = SHelmet :: SLimiter :: t.
Proof.
  intros Hapi.
  destruct (Z.le_gt_cases 100 (general_used st req)) as [Hu | Hu].
  { rewrite serve_general_reject by assumption. cbn [final stages]. eauto. }
  destruct (auth_path (path req)) eqn:Hauth.
  - destruct (Z.le_gt_cases 5 (auth_used st req)) as [Ha | Ha].
    + rewrite serve_auth_reject by (assumption || lia). cbn [final stages].
      rewrite give_back_general. split; [reflexivity | eauto].
    + destruct (serve_auth_pass st req Hauth ltac:(lia) ltac:(lia)) as (Hf & t & Ht).
      rewrite Hf, Ht, give_back_general. split; [reflexivity | eauto].
  - destruct (serve_general_pass st req Hapi ltac:(lia) Hauth) as (Hf & t & Ht).
    rewrite Hf, Ht. eauto.
Qed.

Lemma limiter_window_positive : 0 < RateLimit.windowMs limiter.
Proof. reflexivity. Qed.

Lemma auth_window_positive : 0 < RateLimit.windowMs authLimiter.
Proof. reflexivity. Qed.

(** C9: the general limiter counts every request under the /api/ prefix,
    the health endpoint /api/health included: the limiter stage runs and
    the client's used quota grows by one; a request to the root path /
    runs through no rate-limiting stage and leaves both stores as they
    were. *)
Theorem C9_limiter_scope (st : AppState) (req : Request) :
  (Path.mounted "/api/" (path req) = true ->
   SLimiter ∈ stages (serve' st req) /\
   general_used (final (serve' st req)) req = general_used st req + 1) /\
  (path req = "/api/health" ->
   SLimiter ∈ stages (serve' st req) /\
   general_used (final (serve' st req)) req = general_used st req + 1) /\
  (path req = "/" ->
   final (serve' st req) = st /\
   forall s, s ∈ stages (serve' st req) -> phase_of s <> 1%nat).
Proof.
  assert (Path.mounted "/api/" (path req) = true ->
          SLimiter ∈ stages (serve' st req) /\
          general_used (final (serve' st req)) req = general_used st req + 1) as Hapi.
  { intros H. destruct (serve_api st req H) as (Hg & t & Ht). split.
    - rewrite Ht. rewrite !elem_of_cons. auto.
    - unfold general_used. rewrite Hg. unfold counted_general.
      cbn [with_store generalStore].
      rewrite used_after_hit by exact limiter_window_positive. reflexivity. }
  split; [exact Hapi |]. split.
  - intros Hp. apply Hapi. rewrite Hp. reflexivity.
  - intros Hp.
    destruct (serve_outside st req) as (Hf & t & Ht); [rewrite Hp; reflexivity |].
    split; [exact Hf |].
    intros s Hs.
    pose proof (sublist_sorted _ _ _ (serve_stages_sublist st req) pipeline_order_sorted)
      as Hsorted.
    rewrite Ht in Hs, Hsorted.
    apply elem_of_cons in Hs as [-> | Hs]; [discriminate |].
    apply elem_of_cons in Hs as [-> | Hs]; [discriminate |].
    apply StronglySorted_inv in Hsorted as [Hsorted _].
    apply StronglySorted_inv in Hsorted as [_ Hall].
    rewrite Forall_forall in Hall. destruct (Hall s Hs) as [Hle _].
    simpl in Hle. lia.
Qed.

Local Abbreviation dispatch' := (dispatch env downstream bodyParser errorHandler requestWasSuccessful).
Local Abbreviation let_through' := (let_through env bodyParser).

(** A request the admission stages let through reaches the dispatch part
    of the stack. *)
Lemma run_below_through (st : AppState) (req : Request) hooks trace :
  Cors.origin env (originHeader req) = Cors.Pass ->
  method req <> OPTIONS ->
  bodyParser JsonParser req = None ->
  bodyParser UrlencodedParser req = None ->
  run below req st None hooks trace =
  run dispatch' req st None hooks (trace ++ [SMorgan; SCors; SJson; SUrlencoded]).
Proof.
  intros Hcors Hm Hj Hu.
  unfold after_limiters, dispatch. cbn [drop app].
  rewrite (run_use_next SMorgan morgan _ req st st []) by reflexivity.
  rewrite (run_use_next SCors (cors env) _ req st st []).
  2:{ unfold cors. rewrite Hcors. destruct (method req); congruence. }
  rewrite (run_use_next SJson _ _ req st st []) by (unfold parse; now rewrite Hj).
  rewrite (run_use_next SUrlencoded _ _ req st st []) by (unfold parse; now rewrite Hu).
  rewrite !app_nil_r, <- !app_assoc. reflexivity.
Qed.

Lemma existsb_false {A} (f : A -> bool) (l : list A) (x : A) :
  existsb f l = false -> In x l -> f x = false.
Proof.
  intros H Hx. apply not_true_iff_false. intros Hf.
  assert (existsb f l = true) by (apply existsb_exists; eauto). congruence.
Qed.

Ltac walk_stack :=
  repeat first
    [ rewrite run_use_at_skip by assumption
    | rewrite run_get_skip by (apply andb_false_iff; right; assumption)
    | rewrite run_skip by reflexivity ].

(** A path no route claims falls through to the last layer. *)
Lemma run_dispatch_miss (st : AppState) (req : Request) hooks trace :
  matches_route (path req) = false ->
  run dispatch' req st None hooks trace =
  {| run_response := not_found req; run_state := st;
     run_hooks := hooks; run_stages := trace ++ [SNotFound] |}.
Proof.
  unfold matches_route. intros H.
  apply orb_false_iff in H as [H Hhealth]. apply orb_false_iff in H as [Hm Hroot].
  pose proof (fun m => existsb_false _ _ m Hm) as Hno. cbv beta in Hno.
  pose proof (Hno "/api/uploads" ltac:(simpl; tauto)).
  pose proof (Hno "/api/uploads/leaves" ltac:(simpl; tauto)).
  pose proof (Hno "/api/auth" ltac:(simpl; tauto)).
  pose proof (Hno "/api/attendance" ltac:(simpl; tauto)).
  pose proof (Hno "/api/dashboard" ltac:(simpl; tauto)).
  pose proof (Hno "/api/badges" ltac:(simpl; tauto)).
  pose proof (Hno "/api/profile" ltac:(simpl; tauto)).
  pose proof (Hno "/api/leaves" ltac:(simpl; tauto)).
  pose proof (Hno "/api/leave-types" ltac:(simpl; tauto)).
  pose proof (Hno "/api/notifications" ltac:(simpl; tauto)).
  pose proof (Hno "/api/leave-analytics" ltac:(simpl; tauto)).
  clear Hno Hm.
  unfold dispatch. cbn [drop app].
  walk_stack.
  rewrite (run_use_respond SNotFound notFound _ req st st [] (not_found req))
    by reflexivity.
  rewrite app_nil_r. reflexivity.
Qed.

Lemma no_route_no_auth (p : string) :
  matches_route p = false -> auth_path p = false.
Proof.
  unfold matches_route. intros H.
  apply orb_false_iff in H as [H _]. apply orb_false_iff in H as [Hm _].
  pose proof (existsb_false _ _ "/api/auth" Hm ltac:(simpl; tauto)) as Hauth.
  cbv beta in Hauth.
  apply not_true_iff_false. unfold auth_path. intros [H | H]%orb_true_iff.
  - apply login_under_auth in H. congruence.
  - apply register_under_auth in H. congruence.
Qed.

(** C7 (amended): a request that the admission stages let through (the
    general limiter has quota for it, CORS accepts its origin, it is no
    preflight, its body parses) and whose path matches no mounted route
    prefix is answered by the fallback layer: status 404 and the JSON body
    {success: false, error: "Route not found", path: <the original URL>}. *)
Theorem C7_not_found (st : AppState) (req : Request) :
  matches_route (path req) = false ->
  let_through' st req ->
  response (serve' st req) =
    {| status := 404;
       body := BJson [("success", JBool false);
                      ("error", JString "Route not found");
                      ("path", JString (originalUrl req))] |} /\
  last (stages (serve' st req)) = Some SNotFound.
Proof.
  intros Hroute (Hquota & Hcors & Hm & Hj & Hu).
  pose proof (no_route_no_auth _ Hroute) as Hauth.
  unfold serve, handle, finish. rewrite run_app. cbn zeta.
  destruct (Path.mounted "/api/" (path req)) eqn:Hapi.
  - specialize (Hquota eq_refl). fold (general_used st req) in Hquota.
    rewrite general_decision, Hauth.
    destruct (Z.leb_spec 100 (general_used st req)); [lia |].
    rewrite run_below_through, run_dispatch_miss by assumption.
    cbn [response stages run_response run_stages]. split; [reflexivity |].
    apply last_snoc.
  - rewrite run_below_through, run_dispatch_miss by assumption.
    cbn [response stages run_response run_stages]. split; [reflexivity |].
    apply last_snoc.
Qed.

Ltac walk_to_route Hp :=
  repeat first
    [ rewrite run_use_at_skip by (rewrite Hp; reflexivity)
    | rewrite run_get_skip by (rewrite Hp; apply andb_false_r) ].

(** C8 (amended): for a GET request the admission stages let through, the
    root endpoint / answers 200 with the JSON body {success: true, message,
    timestamp} and the health endpoint /api/health answers 200 with the JSON
    body {status: "OK", message, timestamp, environment}; both timestamps
    are the ISO-8601 rendering of the current time.  The root body has no
    status field and the health body has no success field. *)
Theorem C8_inline_responders (st : AppState) (req : Request) :
  let_through' st req ->
  Express.is_get (method req) = true ->
  (path req = "/" ->
   response (serve' st req) =
     {| status := 200;
        body := BJson [("success", JBool true);
                       ("message", JString "Backend Running Successfully 🚀");
                       ("timestamp", JIsoDate (arrival req))] |}) /\
  (path req = "/api/health" ->
   response (serve' st req) =
     {| status := 200;
        body := BJson [("status", JString "OK");
                       ("message", JString "Server is running");
                       ("timestamp", JIsoDate (arrival req));
                       ("environment", JString (js_or (NODE_ENV env) "development"))] |}).
Proof.
  intros (Hquota & Hcors & Hm & Hj & Hu) Hget. split; intros Hp.
  - unfold serve, handle, finish. rewrite run_app.
    replace (Path.mounted "/api/" (path req)) with false by (rewrite Hp; reflexivity).
    rewrite run_below_through by assumption.
    unfold dispatch. cbn [drop app].
    walk_to_route Hp.
    rewrite run_get by (rewrite Hp, Hget; reflexivity).
    erewrite run_use_respond by reflexivity. reflexivity.
  - assert (Path.mounted "/api/" (path req) = true) as Hapi by (rewrite Hp; reflexivity).
    assert (auth_path (path req) = false) as Hauth by (rewrite Hp; reflexivity).
    specialize (Hquota Hapi). fold (general_used st req) in Hquota.
    unfold serve, handle, finish. rewrite run_app, Hapi. cbn zeta.
    rewrite general_decision, Hauth.
    destruct (Z.leb_spec 100 (general_used st req)); [lia |].
    rewrite run_below_through by assumption.
    unfold dispatch. cbn [drop app].
    walk_to_route Hp.
    rewrite run_get by (rewrite Hp, Hget; reflexivity).
    erewrite run_use_respond by reflexivity. reflexivity.
Qed.

Local Abbreviation serve_all' :=
  (serve_all env downstream bodyParser errorHandler requestWasSuccessful).

(** What the general limiter makes of a request under [/api]. *)
Lemma serve_api_outcome (st : AppState) (req : Request) :
  Path.mounted "/api/" (path req) = true ->
  (general_used st req < 100 -> passes_general (serve' st req)) /\
  (100 <= general_used st req -> stopped_by_general (serve' st req)).
Proof.
  intros Hapi. split; intros Hu.
  - unfold passes_general. destruct (auth_path (path req)) eqn:Hauth.
    + destruct (Z.le_gt_cases 5 (auth_used st req)) as [Ha | Ha].
      * rewrite serve_auth_reject by assumption. cbn [stages]. eauto.
      * destruct (serve_auth_pass st req Hauth Hu ltac:(lia)) as (_ & t & Ht).
        rewrite Ht. eauto.
    + destruct (serve_general_pass st req Hapi Hu Hauth) as (_ & t & Ht).
      rewrite Ht. eauto.
  - rewrite serve_general_reject by assumption. split; reflexivity.
Qed.

Lemma from_client_api_true k r :
  from_client_api k r = true <-> ip r = k /\ Path.mounted "/api/" (path r) = true.
Proof. unfold from_client_api. rewrite andb_true_iff, String.eqb_eq. tauto. Qed.

(** A request of another client, or outside [/api], leaves the client's
    window alone. *)
Lemma serve_general_other (st : AppState) (req : Request) k :
  from_client_api k req = false ->
  generalStore (final (serve' st req)) !! k = generalStore st !! k.
Proof.
  intros H. destruct (Path.mounted "/api/" (path req)) eqn:Hapi.
  - destruct (serve_api st req Hapi) as (Hg & _). rewrite Hg.
    unfold counted_general. cbn [with_store generalStore].
    apply hit_other. intros Heq.
    unfold from_client_api in H. rewrite Hapi, andb_true_r in H.
    apply String.eqb_neq in H. contradiction.
  - destruct (serve_outside st req Hapi) as (Hf & _). now rewrite Hf.
Qed.

(** A request of the client under [/api] finds the count of its running
    window as used quota and leaves it one higher. *)
Lemma serve_general_same (st : AppState) (req : Request) k w :
  from_client_api k req = true ->
  RateLimit.current limiter (generalStore st) k (arrival req) = w ->
  general_used st req = RateLimit.count w /\
  generalStore (final (serve' st req)) !! k =
    Some {| RateLimit.windowStart := RateLimit.windowStart w;
            RateLimit.count := RateLimit.count w + 1 |}.
Proof.
  intros [Hip Hapi]%from_client_api_true Hw. subst k.
  split; [unfold general_used, RateLimit.used; now rewrite Hw |].
  destruct (serve_api st req Hapi) as (Hg & _). rewrite Hg.
  unfold counted_general. cbn [with_store generalStore].
  rewrite hit_store. unfold RateLimit.used. rewrite Hw. apply lookup_insert_eq.
Qed.

Lemma api_hits_cons k r rs :
  api_hits k (r :: rs) =
  ((if from_client_api k r then 1 else 0) + api_hits k rs)%nat.
Proof. unfold api_hits. simpl. destruct (from_client_api k r); reflexivity. Qed.

(** Within one window of the general limiter the verdict on a request of
    the client depends on its rank among the client's requests only. *)
Lemma general_window_run k s (reqs : list Request) :
  forall (st : AppState) (c : Z),
  generalStore st !! k = Some {| RateLimit.windowStart := s; RateLimit.count := c |} ->
  (forall r, r ∈ reqs -> from_client_api k r = true ->
             arrival r < s + RateLimit.windowMs limiter) ->
  forall (j : nat) r out,
  reqs !! j = Some r -> serve_all' st reqs !! j = Some out ->
  from_client_api k r = true ->
  (c + Z.of_nat (api_hits k (take (S j) reqs)) <= 100 -> passes_general out) /\
  (100 < c + Z.of_nat (api_hits k (take (S j) reqs)) -> stopped_by_general out).
Proof.
  induction reqs as [| r0 rs IH]; intros st c Hst Hwin j r out Hr Hout Hk;
    [discriminate |].
  cbn [serve_all] in Hout. rewrite firstn_cons, api_hits_cons.
  destruct (from_client_api k r0) eqn:Hk0.
  - assert (RateLimit.current limiter (generalStore st) k (arrival r0) =
            {| RateLimit.windowStart := s; RateLimit.count := c |}) as Hcur.
    { apply current_live; [exact Hst |]. cbn [RateLimit.windowStart].
      apply Hwin; [apply elem_of_cons; auto | exact Hk0]. }
    destruct (serve_general_same st r0 k _ Hk0 Hcur) as [Hused Hnext].
    cbn [RateLimit.count RateLimit.windowStart] in Hused, Hnext.
    destruct j as [| j].
    + injection Hr as <-. injection Hout as <-.
      rewrite take_0. unfold api_hits at 1 2. cbn [List.filter length].
      apply from_client_api_true in Hk0 as [_ Hapi].
      destruct (serve_api_outcome st r0 Hapi) as [Hpass Hstop].
      split; intros Hn; [apply Hpass | apply Hstop]; lia.
    + cbn [lookup list_lookup] in Hr, Hout.
      destruct (IH _ (c + 1) Hnext
                  (fun r' Hr' => Hwin r' (proj2 (elem_of_cons _ _ _) (or_intror Hr')))
                  j r out Hr Hout Hk) as [Hpass Hstop].
      split; intros Hn; [apply Hpass | apply Hstop]; lia.
  - destruct j as [| j].
    + injection Hr as <-. congruence.
    + cbn [lookup list_lookup] in Hr, Hout.
      pose proof (serve_general_other st r0 k Hk0) as Hsame. rewrite Hst in Hsame.
      destruct (IH _ c Hsame
                  (fun r' Hr' => Hwin r' (proj2 (elem_of_cons _ _ _) (or_intror Hr')))
                  j r out Hr Hout Hk) as [Hpass Hstop].
      split; intros Hn; [apply Hpass | apply Hstop]; lia.
Qed.

Lemma fresh_current (o : RateLimit.Options) (store : gmap string RateLimit.Window) k t :
  fresh_for o store k t ->
  RateLimit.current o store k t = {| RateLimit.windowStart := t; RateLimit.count := 0 |}.
Proof.
  unfold fresh_for, RateLimit.current. destruct (store !! k) as [w |]; [| reflexivity].
  now intros ->.
Qed.

(** C2: take any client and any window of the general limiter, opened by a
    request of the client under /api/ when the client had no running
    window.  Of the client's requests under /api/ that arrive while the
    window lasts (15 minutes from the opening request), whatever other
    requests come in between, the first 100 are passed on by the limiter,
    the 100th included, and the 101st and every later one is answered by
    the limiter with status 429 and the configured message. *)
Theorem C2_general_limiter k (st : AppState) (first : Request) (later : list Request) :
  from_client_api k first = true ->
  fresh_for limiter (generalStore st) k (arrival first) ->
  (forall r, r ∈ later -> from_client_api k r = true ->
             arrival r < arrival first + 15 * 60 * 1000) ->
  forall (j : nat) r out,
  (first :: later) !! j = Some r ->
  serve_all' st (first :: later) !! j = Some out ->
  from_client_api k r = true ->
  ((api_hits k (take (S j) (first :: later)) <= 100)%nat ->
   exists s t, stages out = SHelmet :: SLimiter :: s :: t) /\
  ((100 < api_hits k (take (S j) (first :: later)))%nat ->
   response out =
     {| status := 429;
        body := BText "Too many requests from this IP, please try again later." |} /\
   stages out = [SHelmet; SLimiter]).
Proof.
  intros Hfirst Hfresh Hwin j r out Hr Hout Hk.
  apply fresh_current in Hfresh.
  change (15 * 60 * 1000) with (RateLimit.windowMs limiter) in Hwin.
  destruct (serve_general_same st first k _ Hfirst Hfresh) as [Hused Hnext].
  cbn [RateLimit.count RateLimit.windowStart] in Hused, Hnext.
  rewrite firstn_cons, api_hits_cons, Hfirst.
  cbn [serve_all] in Hout.
  destruct j as [| j].
  - injection Hr as <-. injection Hout as <-.
    rewrite take_0. unfold api_hits. cbn [List.filter length].
    apply from_client_api_true in Hfirst as [_ Hapi].
    destruct (serve_api_outcome st first Hapi) as [Hpass _].
    split; intros Hn; [apply Hpass; lia | lia].
  - cbn [lookup list_lookup] in Hr, Hout.
    destruct (general_window_run k (arrival first) later _ (0 + 1) Hnext Hwin
                j r out Hr Hout Hk) as [Hpass Hstop].
    split; intros Hn; [apply Hpass | apply Hstop]; lia.
Qed.

Local Abbreviation after_all' :=
  (after_all env downstream bodyParser errorHandler requestWasSuccessful).

Lemma serve_api_counts (st : AppState) (req : Request) :
  Path.mounted "/api/" (path req) = true ->
  SLimiter ∈ stages (serve' st req) /\
  general_used (final (serve' st req)) req = general_used st req + 1.
Proof.
  intros H. destruct (serve_api st req H) as (Hg & t & Ht). split.
  - rewrite Ht. rewrite !elem_of_cons. auto.
  - unfold general_used. rewrite Hg. unfold counted_general.
    cbn [with_store generalStore].
    rewrite used_after_hit by exact limiter_window_positive. reflexivity.
Qed.

(** A request that reaches the auth limiter is counted there, and a
    successful response gives the hit back. *)
Lemma serve_auth_store (st : AppState) (req : Request) :
  auth_path (path req) = true ->
  general_used st req < 100 ->
  authStore (final (serve' st req)) =
    let hit := fst (RateLimit.hit authLimiter (authStore st) (ip req) (arrival req)) in
    if requestWasSuccessful (response (serve' st req))
    then RateLimit.forgive hit (ip req) else hit.
Proof.
  intros Hauth Hu. cbn zeta.
  assert (final (serve' st req) =
          give_back' Auth req (response (serve' st req)) (counted_auth st req)) as ->.
  { destruct (Z.le_gt_cases 5 (auth_used st req)) as [Ha | Ha].
    - rewrite serve_auth_reject by assumption. reflexivity.
    - apply serve_auth_pass; [assumption | assumption | lia]. }
  unfold give_back. destruct (requestWasSuccessful (response (serve' st req))); reflexivity.
Qed.

Lemma passes_general_quota (st : AppState) (req : Request) :
  Path.mounted "/api/" (path req) = true ->
  passes_general (serve' st req) -> general_used st req < 100.
Proof.
  intros Hapi (s & t & Hst).
  destruct (Z.le_gt_cases 100 (general_used st req)) as [Hu | Hu]; [| lia].
  rewrite serve_general_reject in Hst by assumption. discriminate Hst.
Qed.

(** A failed attempt that reached the auth limiter uses up one unit of the
    client's running window. *)
Lemma serve_auth_fail (st : AppState) (req : Request) w :
  auth_path (path req) = true ->
  passes_general (serve' st req) ->
  requestWasSuccessful (response (serve' st req)) = false ->
  RateLimit.current authLimiter (authStore st) (ip req) (arrival req) = w ->
  authStore (final (serve' st req)) !! ip req =
    Some {| RateLimit.windowStart := RateLimit.windowStart w;
            RateLimit.count := RateLimit.count w + 1 |}.
Proof.
  intros Hauth Hpass Hfail Hw.
  pose proof (passes_general_quota st req (auth_path_api _ Hauth) Hpass) as Hu.
  rewrite serve_auth_store by assumption. cbn zeta. rewrite Hfail.
  rewrite hit_store. unfold RateLimit.used. rewrite Hw. apply lookup_insert_eq.
Qed.

(** Failed attempts of one client within one window add up. *)
Lemma auth_fail_run k s (reqs : list Request) :
  forall (st : AppState) (c : Z),
  authStore st !! k = Some {| RateLimit.windowStart := s; RateLimit.count := c |} ->
  (forall r, r ∈ reqs ->
     ip r = k /\ auth_path (path r) = true /\
     arrival r < s + RateLimit.windowMs authLimiter) ->
  (forall out, out ∈ serve_all' st reqs ->
     requestWasSuccessful (response out) = false /\ passes_general out) ->
  authStore (after_all' st reqs) !! k =
    Some {| RateLimit.windowStart := s; RateLimit.count := c + Z.of_nat (length reqs) |}.
Proof.
  induction reqs as [| r rs IH]; intros st c Hst Hreqs Houts.
  - cbn [after_all fold_left length]. rewrite Hst. do 2 f_equal. lia.
  - destruct (Hreqs r ltac:(apply elem_of_cons; auto)) as (Hip & Hauth & Ht).
    destruct (Houts (serve' st r) ltac:(cbn [serve_all]; apply elem_of_cons; auto))
      as [Hfail Hpass].
    assert (RateLimit.current authLimiter (authStore st) (ip r) (arrival r) =
            {| RateLimit.windowStart := s; RateLimit.count := c |}) as Hcur.
    { rewrite Hip. apply current_live; [exact Hst | exact Ht]. }
    pose proof (serve_auth_fail st r _ Hauth Hpass Hfail Hcur) as Hnext.
    rewrite Hip in Hnext. cbn [RateLimit.windowStart RateLimit.count] in Hnext.
    change (after_all' st (r :: rs)) with (after_all' (final (serve' st r)) rs).
    rewrite (IH _ (c + 1) Hnext).
    + do 2 f_equal. cbn [length]. lia.
    + intros r' Hr'. apply Hreqs. apply elem_of_cons. auto.
    + intros out Hout. apply Houts. cbn [serve_all]. apply elem_of_cons. auto.
Qed.

(** C3: on the login and registration endpoints the auth limiter (window
    15 minutes, max 5, success-exempt) does not charge a request whose
    response is successful and charges one unit for a failed one that
    reached it; and when five consecutive failed attempts of one client
    within a window of the auth limiter have reached it, the quota of 5 is
    used up and the sixth attempt in that window is turned down with status
    429, by the auth limiter's own message whenever the general limiter
    lets the attempt through, whatever the endpoint behind it would have
    answered. *)
Theorem C3_auth_limiter :
  (forall (st : AppState) (req : Request),
     auth_path (path req) = true ->
     requestWasSuccessful (response (serve' st req)) = true ->
     auth_used (final (serve' st req)) req = auth_used st req) /\
  (forall (st : AppState) (req : Request),
     auth_path (path req) = true ->
     passes_general (serve' st req) ->
     requestWasSuccessful (response (serve' st req)) = false ->
     auth_used (final (serve' st req)) req = auth_used st req + 1) /\
  (forall k s (st : AppState) (first : Request) (more : list Request) (sixth : Request),
     length more = 4%nat ->
     RateLimit.current authLimiter (authStore st) k (arrival first) =
       {| RateLimit.windowStart := s; RateLimit.count := 0 |} ->
     (forall r, r ∈ first :: more ++ [sixth] ->
        ip r = k /\ auth_path (path r) = true /\ arrival r < s + 15 * 60 * 1000) ->
     (forall out, out ∈ serve_all' st (first :: more) ->
        requestWasSuccessful (response out) = false /\ passes_general out) ->
     auth_used (after_all' st (first :: more)) sixth = 5 /\
     status (response (serve' (after_all' st (first :: more)) sixth)) = 429 /\
     (general_used (after_all' st (first :: more)) sixth < 100 ->
      response (serve' (after_all' st (first :: more)) sixth) =
        {| status := 429;
           body := BText "Too many login attempts, please try again later." |} /\
      stages (serve' (after_all' st (first :: more)) sixth) =
        [SHelmet; SLimiter; auth_stage (path sixth)])).
Proof.
  split; [| split].
  - intros st req Hauth Hok.
    destruct (Z.le_gt_cases 100 (general_used st req)) as [Hu | Hu].
    + rewrite serve_general_reject by (auto using auth_path_api). reflexivity.
    + unfold auth_used at 1. rewrite serve_auth_store by assumption. cbn zeta.
      rewrite Hok. apply used_after_forgive, auth_window_positive.
  - intros st req Hauth Hpass Hfail.
    pose proof (passes_general_quota st req (auth_path_api _ Hauth) Hpass) as Hu.
    unfold auth_used at 1. rewrite serve_auth_store by assumption. cbn zeta.
    rewrite Hfail. apply used_after_hit, auth_window_positive.
  - intros k s st first more sixth Hlen Hcur Hreqs Houts.
    change (15 * 60 * 1000) with (RateLimit.windowMs authLimiter) in Hreqs.
    destruct (Hreqs first ltac:(apply elem_of_cons; auto)) as (Hip & Hauth & _).
    destruct (Houts (serve' st first) ltac:(cbn [serve_all]; apply elem_of_cons; auto))
      as [Hfail Hpass].
    rewrite <- Hip in Hcur.
    pose proof (serve_auth_fail st first _ Hauth Hpass Hfail Hcur) as Hone.
    rewrite Hip in Hone. cbn [RateLimit.windowStart RateLimit.count] in Hone.
    assert (authStore (after_all' st (first :: more)) !! k =
            Some {| RateLimit.windowStart := s; RateLimit.count := 5 |}) as Hfive.
    { change (after_all' st (first :: more)) with (after_all' (final (serve' st first)) more).
      rewrite (auth_fail_run k s more _ (0 + 1) Hone).
      - do 2 f_equal. rewrite Hlen. reflexivity.
      - intros r Hr. apply Hreqs. apply elem_of_cons. right.
        apply elem_of_app. auto.
      - intros out Hout. apply Houts. cbn [serve_all]. apply elem_of_cons. auto. }
    destruct (Hreqs sixth) as (Hip6 & Hauth6 & Ht6).
    { apply elem_of_cons. right. apply elem_of_app. right. apply elem_of_cons. left.
      reflexivity. }
    assert (auth_used (after_all' st (first :: more)) sixth = 5) as Hused.
    { unfold auth_used, RateLimit.used. rewrite Hip6.
      rewrite (current_live authLimiter _ k (arrival sixth) _ Hfive Ht6). reflexivity. }
    split; [exact Hused |]. split.
    + destruct (Z.le_gt_cases 100 (general_used (after_all' st (first :: more)) sixth)).
      * rewrite serve_general_reject by (auto using auth_path_api). reflexivity.
      * rewrite serve_auth_reject by (assumption || lia). reflexivity.
    + intros Hquota. rewrite serve_auth_reject by (assumption || lia).
      split; reflexivity.
Qed.

Lemma serve_all_length (st : AppState) (reqs : list Request) :
  length (serve_all' st reqs) = length reqs.
Proof.
  revert st. induction reqs as [| r rs IH]; intros st; [reflexivity |].
  cbn [serve_all length]. now rewrite IH.
Qed.

Lemma api_hits_all k (reqs : list Request) :
  (forall r, r ∈ reqs -> from_client_api k r = true) ->
  api_hits k reqs = length reqs.
Proof.
  induction reqs as [| r rs IH]; intros H; [reflexivity |].
  rewrite api_hits_cons, (H r) by (apply elem_of_cons; auto).
  rewrite IH; [reflexivity |]. intros r' Hr'. apply H. apply elem_of_cons. auto.
Qed.

(** C10 (amended): a request to /api/auth/login or /api/auth/register is
    counted by the general limiter whatever its outcome, and, when the
    general limiter passes it on, by the auth limiter if it fails; it is
    turned down with status 429 as soon as either limit is exceeded.  So of
    the auth requests of one client within one window of the general
    limiter the 101st and every later one is turned down by the general
    limiter, however the earlier ones ended, successful ones included. *)
Theorem C10_both_limiters :
  (forall (st : AppState) (req : Request),
     auth_path (path req) = true ->
     SLimiter ∈ stages (serve' st req) /\
     general_used (final (serve' st req)) req = general_used st req + 1) /\
  (forall (st : AppState) (req : Request),
     auth_path (path req) = true ->
     general_used st req < 100 ->
     auth_stage (path req) ∈ stages (serve' st req) /\
     auth_used (final (serve' st req)) req =
       auth_used st req + (if requestWasSuccessful (response (serve' st req)) then 0 else 1)) /\
  (forall (st : AppState) (req : Request),
     auth_path (path req) = true ->
     (100 <= general_used st req ->
      response (serve' st req) = too_many limiter /\
      stages (serve' st req) = [SHelmet; SLimiter]) /\
     (general_used st req < 100 -> 5 <= auth_used st req ->
      response (serve' st req) = too_many authLimiter /\
      stages (serve' st req) = [SHelmet; SLimiter; auth_stage (path req)]) /\
     (general_used st req < 100 -> auth_used st req < 5 ->
      SMorgan ∈ stages (serve' st req))) /\
  (forall k (st : AppState) (first : Request) (later : list Request),
     (forall r, r ∈ first :: later ->
        ip r = k /\ auth_path (path r) = true /\
        arrival r < arrival first + 15 * 60 * 1000) ->
     fresh_for limiter (generalStore st) k (arrival first) ->
     forall (j : nat) out,
     (100 <= j)%nat ->
     serve_all' st (first :: later) !! j = Some out ->
     response out = too_many limiter /\ stages out = [SHelmet; SLimiter]).
Proof.
  split; [| split; [| split]].
  - intros st req Hauth. apply serve_api_counts, auth_path_api, Hauth.
  - intros st req Hauth Hu. split.
    + destruct (Z.le_gt_cases 5 (auth_used st req)) as [Ha | Ha].
      * rewrite serve_auth_reject by assumption. cbn [stages].
        rewrite !elem_of_cons. auto.
      * destruct (serve_auth_pass st req Hauth Hu ltac:(lia)) as (_ & t & Ht).
        rewrite Ht, !elem_of_cons. auto.
    + unfold auth_used at 1. rewrite serve_auth_store by assumption. cbn zeta.
      destruct (requestWasSuccessful (response (serve' st req))).
      * rewrite used_after_forgive by exact auth_window_positive.
        unfold auth_used. lia.
      * rewrite used_after_hit by exact auth_window_positive. reflexivity.
  - intros st req Hauth. split; [| split].
    + intros Hu. rewrite serve_general_reject by (auto using auth_path_api).
      split; reflexivity.
    + intros Hu Ha. rewrite serve_auth_reject by assumption. split; reflexivity.
    + intros Hu Ha. destruct (serve_auth_pass st req Hauth Hu Ha) as (_ & t & Ht).
      rewrite Ht, !elem_of_cons. auto.
  - intros k st first later Hreqs Hfresh j out Hj Hout.
    change (15 * 60 * 1000) with (RateLimit.windowMs limiter) in Hreqs.
    assert (forall r, r ∈ first :: later -> from_client_api k r = true) as Hall.
    { intros r Hr. destruct (Hreqs r Hr) as (Hip & Hauth & _).
      apply from_client_api_true. auto using auth_path_api. }
    pose proof (Hall first ltac:(apply elem_of_cons; auto)) as Hfirst.
    apply fresh_current in Hfresh.
    destruct (serve_general_same st first k _ Hfirst Hfresh) as [_ Hnext].
    cbn [RateLimit.count RateLimit.windowStart] in Hnext.
    destruct j as [| j]; [lia |].
    cbn [serve_all lookup list_lookup] in Hout.
    assert (exists r, later !! j = Some r) as [r Hr].
    { apply lookup_lt_is_Some. apply lookup_lt_Some in Hout.
      now rewrite serve_all_length in Hout. }
    destruct (general_window_run k (arrival first) later _ (0 + 1) Hnext
                (fun r' Hr' _ => proj2 (proj2 (Hreqs r' (proj2 (elem_of_cons _ _ _)
                                                          (or_intror Hr')))))
                j r out Hr Hout) as [_ Hstop].
    { apply Hall. apply elem_of_cons. right. eapply list_elem_of_lookup_2. exact Hr. }
    apply Hstop.
    rewrite api_hits_all.
    + rewrite length_take. apply lookup_lt_Some in Hr. lia.
    + intros r' Hr'. apply Hall. apply elem_of_cons. right.
      eapply elem_of_sublist; [exact Hr' | apply sublist_take].
Qed.

End ServerFacts.

(** ** Start-up and shutdown *)

Section LifecycleFacts.

Import Lifecycle History.

Variable env : Env.

Lemma guarded_app x (Q : list Entry -> Prop) h l :
  (forall a b, Q a -> Q (a ++ b)) ->
  guarded x Q h ->
  (forall l1 l2, l = l1 ++ x :: l2 -> Q (h ++ l1)) ->
  guarded x Q (h ++ l).
Proof.
  intros Hmono Hh Hl h1 h2 Heq.
  apply app_eq_app in Heq as [m [[H1 H2] | [H1 H2]]].
  - destruct m as [| y m].
    + simpl in H2. rewrite app_nil_r in H1. subst h1.
      rewrite <- (app_nil_r h). apply (Hl [] h2). now rewrite <- H2.
    + injection H2 as <- _. apply (Hh h1 m H1).
  - subst h1. apply (Hl m h2 H2).
Qed.

Lemma guarded_app_fresh x (Q : list Entry -> Prop) h l :
  (forall a b, Q a -> Q (a ++ b)) ->
  guarded x Q h -> x ∉ l -> guarded x Q (h ++ l).
Proof.
  intros Hmono Hh Hx. apply guarded_app; [exact Hmono | exact Hh |].
  intros l1 l2 ->. destruct Hx. apply elem_of_app. right. apply elem_of_cons. auto.
Qed.

Lemma happened_mono ys a b : happened ys a -> happened ys (a ++ b).
Proof. apply sublist_inserts_r. Qed.

Lemma happened_then ys zs a b : happened ys a -> happened zs b -> happened (ys ++ zs) (a ++ b).
Proof. apply sublist_app. Qed.

Lemma listens_app a b : listens (a ++ b) = listens a ++ listens b.
Proof.
  induction a as [| x a IH]; [reflexivity |].
  destruct x as [e | []]; simpl; now rewrite ?IH.
Qed.

Lemma exits_app a b : exits (a ++ b) = exits a ++ exits b.
Proof.
  induction a as [| x a IH]; [reflexivity |].
  destruct x as [e | []]; simpl; now rewrite ?IH.
Qed.

Lemma elem_of_db_closes x (n : nat) :
  x ∈ map Act (repeat DbClose n) -> x = Act DbClose.
Proof.
  induction n as [| n IH]; simpl; [intros H; inversion H |].
  intros [-> | H]%elem_of_cons; [reflexivity | now apply IH].
Qed.

Lemma listens_db_closes (n : nat) : listens (map Act (repeat DbClose n)) = [].
Proof. induction n; [reflexivity | exact IHn]. Qed.

Lemma exits_db_closes (n : nat) : exits (map Act (repeat DbClose n)) = [].
Proof. induction n; [reflexivity | exact IHn]. Qed.

Ltac not_there :=
  let H := fresh "H" in
  intros H;
  repeat (apply elem_of_cons in H as [H | H]; [discriminate H |]);
  first [ now inversion H | apply elem_of_db_closes in H; discriminate H ].

Ltac no_split :=
  let H := fresh "H" in
  let h1 := fresh "h1" in
  intros h1 ? H; destruct h1 as [| ? [| ? ?]]; discriminate H.

Lemma boot_inv : inv env (fst (boot env)) (map Act (snd (boot env))).
Proof.
  constructor; simpl; try reflexivity; try lia; try discriminate; try no_split.
  - intros port'. no_split.
  - intros msg. not_there.
  - intros code. not_there.
Qed.

Lemma no_open_app h l :
  (forall h1 h2, h = h1 ++ Act ServerClose :: h2 -> Ev ConnOpen ∉ h2) ->
  (Act ServerClose ∈ h -> Ev ConnOpen ∉ l) ->
  (forall l1 l2, l = l1 ++ Act ServerClose :: l2 -> Ev ConnOpen ∉ l2) ->
  forall h1 h2, h ++ l = h1 ++ Act ServerClose :: h2 -> Ev ConnOpen ∉ h2.
Proof.
  intros Hh Hl Hll h1 h2 Heq.
  apply app_eq_app in Heq as [m [[H1 H2] | [H1 H2]]].
  - destruct m as [| y m].
    + simpl in H2. apply (Hll [] h2). now rewrite <- H2.
    + injection H2 as <- ->. intros [H | H]%elem_of_app.
      * now apply (Hh h1 m H1).
      * apply Hl; [| exact H]. rewrite H1. apply elem_of_app. right.
        apply elem_of_cons. auto.
  - apply (Hll m h2 H2).
Qed.

Ltac mono :=
  first [ intros ? ?; apply happened_mono
        | let H := fresh in intros ? ? [? H]; eexists; apply elem_of_app; left; exact H ].

Ltac in_tail H :=
  repeat (apply elem_of_cons in H as [H | H]; [try discriminate H |]);
  try solve [ now inversion H | apply elem_of_db_closes in H; discriminate H ].

(** The entry [x] does not occur in the list the equation splits. *)
Ltac absent Hl :=
  exfalso;
  match type of Hl with
  | ?l = _ ++ ?x :: _ =>
      let H := fresh "H" in
      assert (x ∈ l) as H
        by (rewrite Hl; apply elem_of_app; right; apply elem_of_cons; auto);
      in_tail H
  end.

Ltac field_auto :=
  cbn [phase accepting inflight closeWaiters dbWaiters map];
  first
    [ discriminate
    | lia
    | reflexivity
    | solve [intros; apply happened_mono; auto]
    | solve [apply guarded_app_fresh; [mono | assumption | not_there]]
    | solve [intros ?; apply guarded_app_fresh; [mono | auto | not_there]]
    | solve [rewrite listens_app; cbn [listens]; rewrite ?listens_db_closes;
             first [ match goal with H : listens _ = _ |- _ => rewrite H end; cbn [app]; auto
                   | match goal with H : listens _ = _ \/ _ |- _ => destruct H as [H | H]; rewrite H; cbn [app]; auto end ]]
    | solve [rewrite exits_app; cbn [exits]; rewrite ?exits_db_closes;
             match goal with H : exits _ = _ |- _ => rewrite H end; cbn [app];
             first [ reflexivity
                   | split; [reflexivity |];
                     eexists (_ ++ [_; _]); rewrite <- app_assoc; reflexivity
                   | split; [reflexivity |];
                     eexists (_ ++ [_]); rewrite <- app_assoc; reflexivity ]]
    | idtac ].

(** Every reaction of [connectDB] and its callbacks keeps the invariant. *)
Lemma step_inv p h e p' acts :
  inv env p h -> step env p e = Some (p', acts) ->
  inv env p' (h ++ Ev e :: map Act acts).
Proof.
  intros I Hstep. destruct p as [ph acc inf cw dw].
  unfold step in Hstep. cbn [phase accepting inflight closeWaiters dbWaiters] in Hstep.
  destruct I as [Iconn Icw Idw Iacc Isc Ilc Idc Idcd Iex Iopen Ilis Ilac Iexits Irej Ierr].
  cbn [phase accepting inflight closeWaiters dbWaiters] in *.
  destruct ph, e; try discriminate Hstep;
    repeat match type of Hstep with
           | (if ?b then _ else _) = _ => destruct b eqn:?
           | match ?n with _ => _ end = _ => destruct n eqn:?
           end; try discriminate Hstep;
    injection Hstep as <- <-; unfold exited;
    (constructor; field_auto).
  (* the events and errors that end a process cannot lie in the past *)
  all: try (let H := fresh "H" in
            intros ? H; apply elem_of_app in H as [H | H];
            [ first [ destruct (Irej _ H) as [_ Hd]; discriminate Hd
                    | destruct (Ierr _ H) as [_ Hd]; discriminate Hd ]
            | in_tail H ]).
  all: try match goal with
           | H : Ev (ConnectRejected _) = Ev (ConnectRejected _) |- _ =>
               injection H as ->; rewrite (Iconn eq_refl); split; reflexivity
           end.
  (* the listener accepts only while server.close has not been called *)
  all: try (let H := fresh "H" in
            intros H; apply elem_of_app in H as [H | H];
            [ first [ exact (Iacc H) | rewrite (Iconn eq_refl) in H; in_tail H ]
            | in_tail H ]).
  (* no connection is opened after server.close *)
  all: try (apply no_open_app;
            [ assumption
            | let H := fresh "H" in
              intros H; first [ discriminate (Iacc H) | not_there ]
            | let Hl := fresh "Hl" in
              intros l1 l2 Hl;
              solve [absent Hl] ]).
  (* the waiting callbacks have their cause in the history *)
  all: try (intros _; apply sublist_inserts_l; reflexivity).
  all: try (intros _;
            apply (happened_then [Ev Sigterm; Act ServerClose]
                                 [Ev ListenerClosed; Act DbClose]);
            [ apply Icw; lia | repeat apply sublist_skip; apply sublist_nil_l ]).
  (* the steps of the shutdown, each with its predecessors *)
  - intros port'. apply guarded_app; [mono | auto |].
    intros l1 l2 Hl. destruct l1 as [| ? [| ? l1]]; try discriminate Hl.
    injection Hl as <- _ _. exists host. apply elem_of_app. right.
    apply elem_of_cons. auto.
  - apply guarded_app; [mono | assumption |].
    intros l1 l2 Hl. destruct l1 as [| ? l1]; [discriminate Hl |].
    injection Hl as <- _. apply sublist_inserts_l, sublist_skip, sublist_nil_l.
  - apply no_open_app; [assumption | intros _; not_there |].
    intros l1 l2 Hl. destruct l1 as [| ? [| ? l1]].
    + discriminate Hl.
    + injection Hl as _ <-. not_there.
    + injection Hl as _ _ Hl. destruct l1; discriminate Hl.
  - apply guarded_app; [mono | assumption |].
    intros l1 l2 Hl. destruct l1 as [| ? l1].
    + rewrite app_nil_r. apply Icw. lia.
    + injection Hl as _ Hl. absent Hl.
  - apply guarded_app; [mono | assumption |].
    intros l1 l2 Hl. destruct l1 as [| ? l1]; [discriminate Hl |].
    injection Hl as <- _.
    apply (happened_then [Ev Sigterm; Act ServerClose] [Ev ListenerClosed]).
    + apply Icw. lia.
    + apply sublist_skip, sublist_nil_l.
  - apply guarded_app; [mono | assumption |].
    intros l1 l2 Hl. destruct l1 as [| ? l1].
    + rewrite app_nil_r. apply Idw. lia.
    + injection Hl as _ Hl. absent Hl.
  - apply guarded_app; [mono | assumption |].
    intros l1 l2 Hl. destruct l1 as [| ? l1]; [discriminate Hl |].
    injection Hl as <- _.
    apply (happened_then [Ev Sigterm; Act ServerClose; Ev ListenerClosed; Act DbClose]
                         [Ev DbClosed]).
    + apply Idw. lia.
    + apply sublist_skip, sublist_nil_l.
Qed.

Lemma exec_inv evs : forall p h p' h',
  inv env p h -> exec env p h evs = Some (p', h') -> inv env p' h'.
Proof.
  induction evs as [| e evs IH]; intros p h p' h' I Hrun; simpl in Hrun.
  - injection Hrun as <- <-. exact I.
  - destruct (step env p e) as [[p1 acts] |] eqn:Hstep; [| discriminate].
    apply (IH _ _ _ _ (step_inv _ _ _ _ _ I Hstep) Hrun).
Qed.

Lemma start_inv evs p h : start env evs = Some (p, h) -> inv env p h.
Proof. apply exec_inv, boot_inv. Qed.

Lemma exec_app p h a b :
  exec env p h (a ++ b) =
  match exec env p h a with
  | Some (p', h') => exec env p' h' b
  | None => None
  end.
Proof.
  revert p h. induction a as [| e a IH]; intros p h; simpl; [reflexivity |].
  destruct (step env p e) as [[p1 acts] |]; [apply IH | reflexivity].
Qed.

(** The requests in flight finish one by one. *)
Lemma exec_drain (n : nat) : forall acc cw dw h,
  exec env {| phase := Serving; accepting := acc; inflight := n;
              closeWaiters := cw; dbWaiters := dw |} h (repeat ConnDone n) =
  Some ({| phase := Serving; accepting := acc; inflight := 0;
           closeWaiters := cw; dbWaiters := dw |},
        h ++ map Ev (repeat ConnDone n)).
Proof.
  induction n as [| n IH]; intros acc cw dw h; simpl.
  - now rewrite app_nil_r.
  - rewrite IH, <- app_assoc. reflexivity.
Qed.

Lemma exits_split h1 c h2 :
  exits (h1 ++ Act (Exit c) :: h2) = exits h1 ++ c :: exits h2.
Proof. now rewrite exits_app. Qed.

(** An exit is the last entry of a history. *)
Lemma exit_is_last p h :
  inv env p h -> forall h1 h2 c, h = h1 ++ Act (Exit c) :: h2 -> h2 = [].
Proof.
  intros I h1 h2 c Hh. pose proof (inv_exits _ _ _ I) as He.
  assert (exits h = exits h1 ++ c :: exits h2) as Hx by (rewrite Hh; apply exits_split).
  destruct (phase p); try (rewrite He in Hx; now destruct (exits h1)).
  destruct He as [He [h' Hlast]]. rewrite He in Hx.
  assert (exits h2 = []) as H2.
  { destruct (exits h1); [now injection Hx as _ <- |].
    injection Hx as _ Hx. now destruct l. }
  destruct h2 as [| x h2 _] using rev_ind; [reflexivity |].
  rewrite Hlast in Hh. rewrite app_comm_cons, app_assoc in Hh.
  apply app_inj_tail in Hh as [_ <-].
  rewrite exits_app in H2. simpl in H2. now destruct (exits h2).
Qed.

(** C4: in every run of the process the shutdown steps keep their order.
    [server.close] is called only on a termination signal, and from then on
    no connection is accepted; the database connection is closed only after
    the listener-closed callback has fired, which the runtime does only
    once no request is in flight; the process exits with code 0 only after
    the database-close callback has fired, and nothing follows the exit.
    And a signal received while running does lead there: the listener is
    closed at once, the requests in flight finish, the listener-closed
    callback closes the database, and its callback exits with code 0. *)
Theorem C4_shutdown_order evs p h :
  start env evs = Some (p, h) ->
  guarded (Act ServerClose) (happened [Ev Sigterm]) h /\
  (forall h1 h2, h = h1 ++ Act ServerClose :: h2 -> Ev ConnOpen ∉ h2) /\
  guarded (Act DbClose)
          (happened [Ev Sigterm; Act ServerClose; Ev ListenerClosed]) h /\
  guarded (Act (Exit 0))
          (happened [Ev Sigterm; Act ServerClose; Ev ListenerClosed;
                     Act DbClose; Ev DbClosed]) h /\
  (forall h1 h2, h = h1 ++ Act (Exit 0) :: h2 -> h2 = []) /\
  (forall p1 acts, step env p ListenerClosed = Some (p1, acts) ->
     inflight p = 0%nat /\ accepting p = false) /\
  (phase p = Serving -> closeWaiters p = 0%nat -> dbWaiters p = 0%nat ->
   exists p',
     exec env p h (Sigterm :: repeat ConnDone (inflight p) ++ [ListenerClosed; DbClosed])
     = Some (p', h ++ Ev Sigterm :: Act ServerClose
                  :: map Ev (repeat ConnDone (inflight p))
                  ++ [Ev ListenerClosed; Act DbClose; Ev DbClosed; Act (Exit 0)]) /\
     phase p' = Exited 0).
Proof.
  intros Hrun. pose proof (start_inv _ _ _ Hrun) as I.
  split; [apply (inv_server_close _ _ _ I) |].
  split; [apply (inv_no_open _ _ _ I) |].
  split; [apply (inv_db_close _ _ _ I) |].
  split; [apply (inv_exit_0 _ _ _ I) |].
  split; [intros h1 h2; apply (exit_is_last _ _ I) |].
  split.
  - intros p1 acts Hstep. unfold step in Hstep.
    destruct (phase p); try discriminate Hstep.
    destruct (closeWaiters p); [discriminate |].
    destruct (inflight p); [| discriminate].
    destruct (accepting p); [discriminate |]. split; reflexivity.
  - destruct p as [ph acc inf cw dw]. cbn [phase closeWaiters dbWaiters inflight].
    intros -> -> ->. eexists. split.
    + cbn [exec step phase]. cbn [map].
      rewrite exec_app, exec_drain. cbn [exec step phase closeWaiters inflight
        accepting dbWaiters map repeat Nat.add exited].
      rewrite <- !app_assoc. reflexivity.
    + reflexivity.
Qed.


End LifecycleFacts.

(** ** Concrete runs *)

(** C7, as stated, fails for requests that an admission stage answers or
    turns down before the routes are tried.  No route claims /nope, yet a
    preflight to it is answered by the CORS stage with status 200 and an
    empty body, and in production a request to it from a foreign origin is
    handed to the error handler; no route claims /api/nope, yet the 101st
    request to it within a window is answered by the general limiter.  The
    fallback layer sees none of them. *)
Lemma C7_preflight_is_answered_by_cors :
  matches_route "/nope" = false /\
  serve production_env no_routes lenient_parsers plain_errorHandler below_400
        empty_state (request OPTIONS "/nope" None 0)
  = {| response := {| status := 200; body := BEmpty |};
       final := empty_state;
       stages := [SHelmet; SMorgan; SCors] |} /\
  stages (serve production_env no_routes lenient_parsers plain_errorHandler below_400
                empty_state (request GET "/nope" (Some "http://evil.example") 0))
  = [SHelmet; SMorgan; SCors; SErrorHandler] /\
  matches_route "/api/nope" = false /\
  response (serve production_env no_routes lenient_parsers plain_errorHandler below_400
                  (after_all production_env no_routes lenient_parsers plain_errorHandler
                             below_400 empty_state
                             (replicate 100 (request GET "/api/nope" None 0)))
                  (request GET "/api/nope" None 0))
  = too_many limiter.
Proof. repeat split; vm_compute; reflexivity. Qed.

(** The amended C7 on a request nobody claims. *)
Lemma C7_not_found_witness :
  response (serve production_env no_routes lenient_parsers plain_errorHandler below_400
                  empty_state (request GET "/nope" None 0))
  = {| status := 404;
       body := BJson [("success", JBool false);
                      ("error", JString "Route not found");
                      ("path", JString "/nope")] |} /\
  last (stages (serve production_env no_routes lenient_parsers plain_errorHandler
                      below_400 empty_state (request GET "/nope" None 0)))
  = Some SNotFound.
Proof.
  apply (C7_not_found production_env no_routes lenient_parsers plain_errorHandler
           below_400 empty_state (request GET "/nope" None 0)).
  - reflexivity.
  - repeat split; try reflexivity; discriminate.
Defined.

(** C8, as stated, fails on both inline endpoints: the body of the root
    endpoint has no status field, and the body of the health endpoint has
    no success field, so it is not of the envelope shape. *)
Lemma C8_root_lacks_status_health_lacks_success :
  field "status"
        (body (response (serve bare_env no_routes lenient_parsers plain_errorHandler
                               below_400 empty_state (request GET "/" None 0))))
  = None /\
  field "success"
        (body (response (serve bare_env no_routes lenient_parsers plain_errorHandler
                               below_400 empty_state (request GET "/api/health" None 0))))
  = None /\
  status (response (serve bare_env no_routes lenient_parsers plain_errorHandler
                          below_400 empty_state (request GET "/" None 0))) = 200 /\
  status (response (serve bare_env no_routes lenient_parsers plain_errorHandler
                          below_400 empty_state (request GET "/api/health" None 0))) = 200.
Proof. repeat split. Qed.

(** The amended C8 on a health probe. *)
Lemma C8_inline_responders_witness :
  response (serve bare_env no_routes lenient_parsers plain_errorHandler below_400
                  empty_state (request GET "/api/health" None 1700000000000))
  = {| status := 200;
       body := BJson [("status", JString "OK");
                      ("message", JString "Server is running");
                      ("timestamp", JIsoDate 1700000000000);
                      ("environment", JString "development")] |}.
Proof.
  refine (proj2 (C8_inline_responders bare_env no_routes lenient_parsers plain_errorHandler
                   below_400 empty_state (request GET "/api/health" None 1700000000000)
                   _ _) _).
  - repeat split; try reflexivity; discriminate.
  - reflexivity.
  - reflexivity.
Defined.

(** Six login attempts in a row against a router that turns each of them
    down: five answers from the router, then the limiter's. *)
Example six_failed_logins :
  map (fun out => status (response out))
      (serve_all production_env failing_login lenient_parsers plain_errorHandler below_400
                 empty_state (map login [0; 1000; 2000; 3000; 4000; 5000]))
  = [401; 401; 401; 401; 401; 429].
Proof. vm_compute. reflexivity. Qed.

(** Successful logins leave the auth limiter's quota untouched. *)
Example successful_logins_are_free :
  auth_used (after_all production_env welcoming_login lenient_parsers plain_errorHandler
                       below_400 empty_state (map login [0; 1000; 2000; 3000; 4000; 5000]))
            (login 6000)
  = 0.
Proof. vm_compute. reflexivity. Qed.

(** The window runs out: fifteen minutes after the first of five failed
    attempts the client starts afresh. *)
Example quota_returns_with_the_next_window :
  map (fun out => status (response out))
      (serve_all production_env failing_login lenient_parsers plain_errorHandler below_400
                 empty_state (map login [0; 1; 2; 3; 4; 5; 900000]))
  = [401; 401; 401; 401; 401; 429; 401].
Proof. vm_compute. reflexivity. Qed.

(** C2 on a hundred and one health probes of one client: the last one is
    turned down. *)
Lemma C2_general_limiter_witness :
  response (serve bare_env no_routes lenient_parsers plain_errorHandler below_400
                  (after_all bare_env no_routes lenient_parsers plain_errorHandler below_400
                             empty_state (replicate 100 (ping 0)))
                  (ping 0))
  = {| status := 429;
       body := BText "Too many requests from this IP, please try again later." |} /\
  stages (serve bare_env no_routes lenient_parsers plain_errorHandler below_400
                (after_all bare_env no_routes lenient_parsers plain_errorHandler below_400
                           empty_state (replicate 100 (ping 0)))
                (ping 0))
  = [SHelmet; SLimiter].
Proof.
  refine (proj2 (C2_general_limiter bare_env no_routes lenient_parsers plain_errorHandler
                   below_400 "203.0.113.7" empty_state (ping 0) (replicate 100 (ping 0))
                   _ _ _ 100%nat (ping 0) _ _ _ _) _).
  - reflexivity.
  - exact I.
  - intros r [-> _]%elem_of_replicate _. reflexivity.
  - reflexivity.
  - vm_compute. reflexivity.
  - reflexivity.
  - vm_compute. lia.
Defined.

Example the_hundredth_request_is_served :
  response (serve bare_env no_routes lenient_parsers plain_errorHandler below_400
                  (after_all bare_env no_routes lenient_parsers plain_errorHandler below_400
                             empty_state (replicate 99 (ping 0)))
                  (ping 0))
  = {| status := 200;
       body := BJson [("status", JString "OK");
                      ("message", JString "Server is running");
                      ("timestamp", JIsoDate 0);
                      ("environment", JString "development")] |}.
Proof. vm_compute. reflexivity. Qed.

(** C3 on six failed logins of one client: the sixth is turned down by the
    auth limiter. *)
Lemma C3_auth_limiter_witness :
  response (serve production_env failing_login lenient_parsers plain_errorHandler below_400
                  (after_all production_env failing_login lenient_parsers plain_errorHandler
                             below_400 empty_state (map login [0; 1000; 2000; 3000; 4000]))
                  (login 5000))
  = {| status := 429;
       body := BText "Too many login attempts, please try again later." |} /\
  stages (serve production_env failing_login lenient_parsers plain_errorHandler below_400
                (after_all production_env failing_login lenient_parsers plain_errorHandler
                           below_400 empty_state (map login [0; 1000; 2000; 3000; 4000]))
                (login 5000))
  = [SHelmet; SLimiter; SAuthLimiter "/api/auth/login"].
Proof.
  refine (proj2 (proj2 (proj2 (proj2 (C3_auth_limiter production_env failing_login
                                        lenient_parsers plain_errorHandler below_400))
            "203.0.113.7" 0 empty_state (login 0) (map login [1000; 2000; 3000; 4000])
            (login 5000) _ _ _ _)) _).
  - reflexivity.
  - reflexivity.
  - intros r Hr. cbn [map app] in Hr.
    repeat (apply elem_of_cons in Hr as [-> | Hr]; [repeat split |]).
    inversion Hr.
  - intros out Hout. cbn [map serve_all] in Hout.
    repeat (apply elem_of_cons in Hout as [-> | Hout];
            [split; [vm_compute; reflexivity | do 2 eexists; vm_compute; reflexivity] |]).
    inversion Hout.
  - vm_compute. reflexivity.
Defined.

(** The amended C10 on a hundred and one successful logins of one client:
    the last one is turned down by the general limiter. *)
Lemma C10_both_limiters_witness :
  response (serve production_env welcoming_login lenient_parsers plain_errorHandler below_400
                  (after_all production_env welcoming_login lenient_parsers plain_errorHandler
                             below_400 empty_state (replicate 100 (login 0)))
                  (login 0))
  = {| status := 429;
       body := BText "Too many requests from this IP, please try again later." |} /\
  stages (serve production_env welcoming_login lenient_parsers plain_errorHandler below_400
                (after_all production_env welcoming_login lenient_parsers plain_errorHandler
                           below_400 empty_state (replicate 100 (login 0)))
                (login 0))
  = [SHelmet; SLimiter].
Proof.
  refine (proj2 (proj2 (proj2 (C10_both_limiters production_env welcoming_login
                                 lenient_parsers plain_errorHandler below_400)))
            "203.0.113.7" empty_state (login 0) (replicate 100 (login 0))
            _ _ 100%nat _ _ _).
  - intros r Hr. apply elem_of_cons in Hr as [-> | [-> _]%elem_of_replicate];
      repeat split.
  - exact I.
  - lia.
  - vm_compute. reflexivity.
Defined.

(** A hundred successful logins do not touch the auth limiter's quota, and
    the next one is turned down all the same, by the general limiter. *)
Example hundred_successful_logins :
  auth_used (after_all production_env welcoming_login lenient_parsers plain_errorHandler
                       below_400 empty_state (replicate 100 (login 0)))
            (login 0) = 0 /\
  general_used (after_all production_env welcoming_login lenient_parsers plain_errorHandler
                          below_400 empty_state (replicate 100 (login 0)))
               (login 0) = 100.
Proof. vm_compute. auto. Qed.

(** The three runs, as the process goes through them. *)
Example graceful_run_history :
  option_map snd (Lifecycle.start bare_env graceful_run) = Some graceful_history /\
  option_map (fun r => Lifecycle.phase (fst r)) (Lifecycle.start bare_env graceful_run)
  = Some (Lifecycle.Exited 0).
Proof. split; reflexivity. Qed.

Example failed_start_history :
  option_map snd (Lifecycle.start bare_env failed_start) = Some failed_history /\
  History.listens failed_history = [].
Proof. split; reflexivity. Qed.

Example port_in_use_run :
  option_map snd (Lifecycle.start bare_env port_in_use) = Some port_in_use_history /\
  History.listens port_in_use_history = ["5000"] /\
  History.exits port_in_use_history = [1].
Proof. repeat split. Qed.

(** Nothing can be delivered to a process that has exited: the run cannot
    go on after a failed start. *)
Example no_step_after_failed_start :
  Lifecycle.start bare_env (failed_start ++ [Lifecycle.ConnectResolved "localhost"]) = None.
Proof. reflexivity. Qed.

(** C4 on the graceful run. *)
Lemma C4_shutdown_order_witness :
  History.guarded (Lifecycle.Act Lifecycle.DbClose)
    (History.happened [Lifecycle.Ev Lifecycle.Sigterm; Lifecycle.Act Lifecycle.ServerClose;
                       Lifecycle.Ev Lifecycle.ListenerClosed])
    graceful_history /\
  History.guarded (Lifecycle.Act (Lifecycle.Exit 0))
    (History.happened [Lifecycle.Ev Lifecycle.Sigterm; Lifecycle.Act Lifecycle.ServerClose;
                       Lifecycle.Ev Lifecycle.ListenerClosed;
                       Lifecycle.Act Lifecycle.DbClose; Lifecycle.Ev Lifecycle.DbClosed])
    graceful_history.
Proof.
  pose proof (C4_shutdown_order bare_env graceful_run _ graceful_history eq_refl) as H.
  split; [exact (proj1 (proj2 (proj2 H))) | exact (proj1 (proj2 (proj2 (proj2 H))))].
Defined.


(** C10, as stated, fails for an auth request that the general limiter
    turns down: the request fails with status 429, yet the auth limiter
    never runs and does not count it.  Here the client has used up the
    general quota with a hundred health probes before its login attempt. *)
Lemma C10_general_rejection_is_not_counted_by_auth :
  response (serve production_env failing_login lenient_parsers plain_errorHandler below_400
                  (after_all production_env failing_login lenient_parsers plain_errorHandler
                             below_400 empty_state (replicate 100 (ping 0)))
                  (login 1000))
  = too_many limiter /\
  stages (serve production_env failing_login lenient_parsers plain_errorHandler below_400
                (after_all production_env failing_login lenient_parsers plain_errorHandler
                           below_400 empty_state (replicate 100 (ping 0)))
                (login 1000))
  = [SHelmet; SLimiter] /\
  below_400 (too_many limiter) = false /\
  auth_used (after_all production_env failing_login lenient_parsers plain_errorHandler
                       below_400 empty_state (replicate 100 (ping 0)))
            (login 1000) = 0 /\
  auth_used (final (serve production_env failing_login lenient_parsers plain_errorHandler
                          below_400
                          (after_all production_env failing_login lenient_parsers
                                     plain_errorHandler below_400 empty_state
                                     (replicate 100 (ping 0)))
                          (login 1000)))
            (login 1000) = 0.
Proof. repeat split; vm_compute; reflexivity. Qed.

(** A health probe that is let through runs the stages of every kind, in
    the order of the stack. *)
Example stages_of_a_health_probe :
  stages (serve bare_env no_routes lenient_parsers plain_errorHandler below_400
                empty_state (ping 0))
  = [SHelmet; SLimiter; SMorgan; SCors; SJson; SUrlencoded; SHealthRoute].
Proof. reflexivity. Qed.

Example stages_of_a_login :
  stages (serve bare_env welcoming_login lenient_parsers plain_errorHandler below_400
                empty_state (login 0))
  = [SHelmet; SLimiter; SAuthLimiter "/api/auth/login"; SMorgan; SCors; SJson;
     SUrlencoded; SRouter "/api/auth"].
Proof. reflexivity. Qed.

(** The amended C1 on a foreign origin in production. *)
Lemma C1_cors_decision_witness :
  Cors.decide_request production_env (Some "http://evil.example")
  = Cors.denied "Not allowed by CORS".
Proof.
  refine (proj1 (proj2 (proj2 (C1_cors_decision production_env
                                 (Some "http://evil.example"))))
            "http://evil.example" eq_refl _ _ eq_refl).
  - discriminate.
  - intros [H | [H | H]]; discriminate H.
Defined.

(** C6 on a login: the general limiter runs before the logger. *)
Lemma C6_stage_order_witness :
  (phase_of SLimiter <= phase_of SMorgan)%nat /\ SLimiter <> SMorgan.
Proof.
  refine (proj1 (proj2 (C6_stage_order bare_env welcoming_login lenient_parsers
                          plain_errorHandler below_400 empty_state (login 0)))
            1%nat 3%nat SLimiter SMorgan _ eq_refl eq_refl).
  lia.
Defined.

(** C9 on a health probe: the general limiter runs and counts it. *)
Lemma C9_limiter_scope_witness :
  SLimiter ∈ stages (serve bare_env no_routes lenient_parsers plain_errorHandler below_400
                           empty_state (ping 0)) /\
  general_used (final (serve bare_env no_routes lenient_parsers plain_errorHandler
                             below_400 empty_state (ping 0)))
               (ping 0)
  = general_used empty_state (ping 0) + 1.
Proof.
  exact (proj1 (proj2 (C9_limiter_scope bare_env no_routes lenient_parsers
                         plain_errorHandler below_400 empty_state (ping 0)))
           eq_refl).
Defined.

(** * Further properties *)

(** ** The readers of the environment *)

Section EnvironmentFacts.

Variable env : Env.

Lemma allowed_empty_frontend :
  Cors.allowed (with_frontend env (Some "")) = Cors.allowed (with_frontend env None).
Proof. reflexivity. Qed.

Lemma listed_without_frontend (s : string) (v : jsstr) :
  Cors.listed (with_frontend env None) s -> Cors.listed (with_frontend env v) s.
Proof.
  unfold Cors.listed. cbn [FRONTEND_URL with_frontend].
  intros [H | [H | H]]; [auto | auto | discriminate H].
Qed.

(** X1: an empty [FRONTEND_URL] adds nothing to the allow-list, so the
    decision is the one taken with [FRONTEND_URL] unset; and whatever value
    [FRONTEND_URL] is given, no request that is allowed without it is
    denied with it. *)
Theorem X1_frontend_url_only_adds (o : jsstr) :
  Cors.decide_request (with_frontend env (Some "")) o
  = Cors.decide_request (with_frontend env None) o /\
  (forall v,
     Cors.allow (Cors.decide_request (with_frontend env None) o) = true ->
     Cors.allow (Cors.decide_request (with_frontend env v) o) = true).
Proof.
  split.
  - unfold Cors.decide_request, Cors.origin. rewrite allowed_empty_frontend. reflexivity.
  - intros v. unfold Cors.decide_request.
    destruct (truthy o) eqn:Ho.
    + destruct o as [s |]; [| discriminate Ho].
      apply truthy_Some in Ho. rewrite !origin_truthy by exact Ho.
      destruct (Cors.includes (Cors.allowed (with_frontend env None)) s
                || Cors.not_production (with_frontend env None)) eqn:Hbase;
        [| discriminate].
      intros _.
      assert (Cors.includes (Cors.allowed (with_frontend env v)) s
              || Cors.not_production (with_frontend env v) = true) as ->; [| reflexivity].
      apply orb_true_iff in Hbase as [Hin | Hmode]; apply orb_true_iff.
      * left. apply includes_allowed; [exact Ho |].
        apply listed_without_frontend. now apply includes_allowed in Hin.
      * right. exact Hmode.
    + intros _. rewrite origin_falsy by exact Ho. reflexivity.
Qed.

(** X2: the three readers of [NODE_ENV] agree on "development" only when it
    is spelled out.  The health endpoint reports [NODE_ENV], or
    "development" when it is unset or empty.  When the logger uses its
    [dev] format, the health endpoint reports "development" and CORS lets
    every origin in; but the health endpoint reports "development" while
    the logger uses its [combined] format exactly when [NODE_ENV] is unset
    or empty. *)
Theorem X2_node_env_readers :
  (forall req st, exists r,
     health env req st = (st, [], Respond r) /\
     field "environment" (body r) = Some (JString (reported_environment env))) /\
  (morgan_format env = "dev" ->
   reported_environment env = "development" /\
   forall o, Cors.origin env o = Cors.Pass) /\
  ((reported_environment env = "development" /\ morgan_format env = "combined")
   <-> truthy (NODE_ENV env) = false).
Proof.
  split; [intros req st; eexists; split; reflexivity |].
  unfold morgan_format, reported_environment, js_or, truthy. split.
  - destruct (bool_decide_reflect (NODE_ENV env = Some "development")) as [He | He];
      [| discriminate].
    intros _. rewrite He. split; [reflexivity |].
    assert (Cors.not_production env = true) as Hmode.
    { apply not_production_spec. rewrite He. discriminate. }
    intros o. destruct (truthy o) eqn:Ho; [| now apply origin_falsy].
    destruct o as [s |]; [| discriminate Ho]. apply truthy_Some in Ho.
    rewrite origin_truthy by exact Ho. now rewrite Hmode, orb_true_r.
  - destruct (NODE_ENV env) as [s |]; [| split; [reflexivity | split; reflexivity]].
    destruct (String.eqb_spec s "") as [-> | Hs]; cbn [negb].
    + split; [reflexivity | intros _; split; reflexivity].
    + split; [| discriminate]. intros [-> Hfmt]. discriminate Hfmt.
Qed.

End EnvironmentFacts.

(** ** Mount points that part ways *)

Section MountFacts.

Import Path.

Lemma diverge_strip (a b p : string) :
  diverge a b = true -> is_Some (strip_prefix a p) -> strip_prefix b p = None.
Proof.
  revert b p. induction a as [| x a IH]; intros b p; [discriminate |].
  destruct b as [| y b]; [discriminate |].
  destruct p as [| c p]; [reflexivity |].
  cbn [diverge strip_prefix].
  destruct (Ascii.eqb (lower x) (lower y)) eqn:Exy.
  - apply Ascii.eqb_eq in Exy. rewrite <- Exy.
    destruct (Ascii.eqb (lower x) (lower c)); [apply IH | reflexivity].
  - intros _.
    destruct (Ascii.eqb (lower x) (lower c)) eqn:Ex; [| intros [? ?]; discriminate].
    intros _.
    destruct (Ascii.eqb (lower y) (lower c)) eqn:Ey; [| reflexivity].
    apply Ascii.eqb_eq in Ex, Ey. rewrite <- Ey in Ex.
    apply Ascii.eqb_neq in Exy. contradiction.
Qed.

(** No path lies under two mount points that part ways. *)
Lemma mounted_diverge (m1 m2 p : string) :
  diverge (mount_point m1) (mount_point m2) = true ->
  mounted m1 p = true -> mounted m2 p = false.
Proof.
  intros Hd. unfold mounted.
  destruct (strip_prefix (mount_point m1) p) as [r |] eqn:E; [| discriminate].
  intros _. rewrite (diverge_strip _ _ p Hd); [reflexivity |].
  rewrite E. eauto.
Qed.

Lemma route_diverge (m r p : string) :
  diverge (mount_point m) (mount_point r) = true ->
  mounted m p = true -> route_matches r p = false.
Proof.
  intros Hd. unfold mounted, route_matches.
  destruct (strip_prefix (mount_point m) p) as [r' |] eqn:E; [| discriminate].
  intros _. rewrite (diverge_strip _ _ p Hd); [reflexivity |].
  rewrite E. eauto.
Qed.

(** The route [/] takes the paths [/] and the empty one only. *)
Lemma root_route (p : string) :
  route_matches "/" p = true -> p = "" \/ p = "/".
Proof.
  unfold route_matches. cbn [mount_point Ascii.eqb Bool.eqb strip_prefix].
  intros [H | H]%orb_true_iff; apply String.eqb_eq in H; auto.
Qed.

(** A router's mount point is not the root route. *)
Lemma router_not_root (m p : string) :
  m ∈ router_mounts -> mounted m p = true -> route_matches "/" p = false.
Proof.
  intros Hm Hp. apply not_true_iff_false. intros Hr.
  unfold router_mounts in Hm. rewrite !elem_of_cons in Hm.
  destruct (root_route _ Hr) as [-> | ->];
    repeat (destruct Hm as [-> | Hm]; [discriminate Hp |]);
    now apply elem_of_nil in Hm.
Qed.

(** Nothing below [/api/uploads] is a login or registration path. *)
Lemma uploads_not_auth (p : string) :
  mounted "/api/uploads" p = true -> auth_path p = false.
Proof.
  intros H. unfold auth_path.
  rewrite (mounted_diverge "/api/uploads" "/api/auth/login" p eq_refl H).
  rewrite (mounted_diverge "/api/uploads" "/api/auth/register" p eq_refl H).
  reflexivity.
Qed.

Lemma leaves_under_uploads (p : string) :
  mounted "/api/uploads/leaves" p = true -> mounted "/api/uploads" p = true.
Proof. apply (mounted_below _ "/api/uploads" "leaves"); reflexivity. Qed.

End MountFacts.


(** ** Requests that no limiter stops *)

Section AdmissionFacts.

Import Express.

Variable env : Env.
Variable downstream : Stage -> Request -> Handled.
Variable bodyParser : Parser -> Request -> option Error.
Variable errorHandler : Error -> Request -> Response.
Variable requestWasSuccessful : Response -> bool.

Local Abbreviation app' := (app env downstream bodyParser errorHandler requestWasSuccessful).
Local Abbreviation below := (after_limiters env downstream bodyParser errorHandler requestWasSuccessful).
Local Abbreviation dispatch' := (dispatch env downstream bodyParser errorHandler requestWasSuccessful).
Local Abbreviation serve' := (serve env downstream bodyParser errorHandler requestWasSuccessful).

Lemma run_use_raise s h ls req st st' hk e hooks trace :
  h req st = (st', hk, NextErr e) ->
  run (Use s h :: ls) req st None hooks trace =
  run ls req st' (Some e) (hooks ++ hk) (trace ++ [s]).
Proof. intros H. simpl. now rewrite H. Qed.

Lemma run_on_error s h ls req st st' hk e r hooks trace :
  h e req st = (st', hk, Respond r) ->
  run (UseError s h :: ls) req st (Some e) hooks trace =
  {| run_response := r; run_state := st';
     run_hooks := hooks ++ hk; run_stages := trace ++ [s] |}.
Proof. intros H. simpl. now rewrite H. Qed.

(** With quota left at every limiter on its way, a request reaches the
    logger, having run through the limiter stages of its path. *)
Lemma run_app_within (st : AppState) (req : Request) :
  within_quota st req ->
  exists st' hk,
    run app' req st None [] [] = run below req st' None hk (limiter_stages (path req)).
Proof.
  intros [Hgen Hauth]. rewrite run_app. unfold limiter_stages.
  destruct (Path.mounted "/api/" (path req)) eqn:Hapi; [| eauto].
  specialize (Hgen eq_refl). cbn zeta. rewrite general_decision.
  destruct (Z.leb_spec 100 (general_used st req)); [lia |].
  fold (counted_general st req).
  destruct (auth_path (path req)) eqn:Hpath; [| eauto].
  specialize (Hauth eq_refl). rewrite auth_decision.
  destruct (Z.leb_spec 5 (auth_used st req)); [lia |]. eauto.
Qed.

(** An error raised below the limiters is answered by the error handler:
    every layer between the one that raised it and the handler is skipped. *)
Lemma run_raised (ls : list Layer) req st e hooks trace :
  Forall (fun l => forall s h, l <> UseError s h) ls ->
  forall rest,
  run (ls ++ UseError SErrorHandler (onError errorHandler) :: rest)
      req st (Some e) hooks trace =
  {| run_response := errorHandler e req; run_state := st;
     run_hooks := hooks; run_stages := trace ++ [SErrorHandler] |}.
Proof.
  induction 1 as [| l ls Hl Hls IH]; intros rest.
  - cbn [List.app]. erewrite run_on_error by reflexivity. now rewrite app_nil_r.
  - cbn [List.app]. rewrite run_skip; [apply IH |].
    destruct l; try reflexivity. now destruct (Hl s h).
Qed.

Lemma dispatch_split :
  dispatch' =
  take 13 dispatch' ++ UseError SErrorHandler (onError errorHandler)
                   :: [Use SNotFound (notFound)].
Proof. reflexivity. Qed.

Lemma dispatch_routes_plain :
  Forall (fun l => forall s h, l <> UseError s h) (take 13 dispatch').
Proof. unfold dispatch. cbn [drop take app]. repeat constructor; discriminate. Qed.

Lemma run_dispatch_raised req st e hooks trace :
  run dispatch' req st (Some e) hooks trace =
  {| run_response := errorHandler e req; run_state := st;
     run_hooks := hooks; run_stages := trace ++ [SErrorHandler] |}.
Proof. rewrite dispatch_split. apply run_raised, dispatch_routes_plain. Qed.

Lemma origin_fail_message (o : jsstr) (msg : string) :
  Cors.origin env o = Cors.Fail msg -> msg = "Not allowed by CORS".
Proof.
  unfold Cors.origin. destruct (negb (truthy o)); [discriminate |].
  destruct o as [s |]; [| discriminate].
  destruct (Cors.includes (Cors.allowed env) s || Cors.not_production env);
    [discriminate | now intros [= <-]].
Qed.

Lemma serve_within (st : AppState) (req : Request) :
  within_quota st req ->
  exists st' hk,
    serve' st req = finish (run below req st' None hk (limiter_stages (path req))).
Proof.
  intros H. destruct (run_app_within st req H) as (st' & hk & Hrun).
  exists st', hk. unfold serve, handle. now rewrite Hrun.
Qed.

Lemma run_below_refused (st : AppState) (req : Request) hooks trace msg :
  Cors.origin env (originHeader req) = Cors.Fail msg ->
  run below req st None hooks trace =
  {| run_response := errorHandler {| err_message := msg |} req; run_state := st;
     run_hooks := hooks; run_stages := trace ++ [SMorgan; SCors; SErrorHandler] |}.
Proof.
  intros Hcors. unfold after_limiters. cbn [drop app].
  rewrite (run_use_next SMorgan morgan _ req st st []) by reflexivity.
  rewrite (run_use_raise SCors (cors env) _ req st st [] {| err_message := msg |})
    by (unfold cors; now rewrite Hcors).
  rewrite !run_skip by reflexivity.
  erewrite run_on_error by reflexivity.
  rewrite !app_nil_r, <- !app_assoc. reflexivity.
Qed.

Lemma run_below_preflight (st : AppState) (req : Request) hooks trace :
  Cors.origin env (originHeader req) = Cors.Pass ->
  method req = OPTIONS ->
  run below req st None hooks trace =
  {| run_response := {| status := 200; body := BEmpty |}; run_state := st;
     run_hooks := hooks; run_stages := trace ++ [SMorgan; SCors] |}.
Proof.
  intros Hcors Hm. unfold after_limiters. cbn [drop app].
  rewrite (run_use_next SMorgan morgan _ req st st []) by reflexivity.
  erewrite run_use_respond by (unfold cors; rewrite Hcors, Hm; reflexivity).
  rewrite !app_nil_r, <- !app_assoc. reflexivity.
Qed.

Lemma run_below_json_error (st : AppState) (req : Request) hooks trace e :
  Cors.origin env (originHeader req) = Cors.Pass ->
  method req <> OPTIONS ->
  bodyParser JsonParser req = Some e ->
  run below req st None hooks trace =
  {| run_response := errorHandler e req; run_state := st;
     run_hooks := hooks; run_stages := trace ++ [SMorgan; SCors; SJson; SErrorHandler] |}.
Proof.
  intros Hcors Hm Hj. unfold after_limiters. cbn [drop app].
  rewrite (run_use_next SMorgan morgan _ req st st []) by reflexivity.
  rewrite (run_use_next SCors (cors env) _ req st st []).
  2:{ unfold cors. rewrite Hcors. destruct (method req); congruence. }
  rewrite (run_use_raise SJson _ _ req st st [] e) by (unfold parse; now rewrite Hj).
  rewrite !run_skip by reflexivity.
  erewrite run_on_error by reflexivity.
  rewrite !app_nil_r, <- !app_assoc. reflexivity.
Qed.

Lemma run_below_urlencoded_error (st : AppState) (req : Request) hooks trace e :
  Cors.origin env (originHeader req) = Cors.Pass ->
  method req <> OPTIONS ->
  bodyParser JsonParser req = None ->
  bodyParser UrlencodedParser req = Some e ->
  run below req st None hooks trace =
  {| run_response := errorHandler e req; run_state := st;
     run_hooks := hooks;
     run_stages := trace ++ [SMorgan; SCors; SJson; SUrlencoded; SErrorHandler] |}.
Proof.
  intros Hcors Hm Hj Hu. unfold after_limiters. cbn [drop app].
  rewrite (run_use_next SMorgan morgan _ req st st []) by reflexivity.
  rewrite (run_use_next SCors (cors env) _ req st st []).
  2:{ unfold cors. rewrite Hcors. destruct (method req); congruence. }
  rewrite (run_use_next SJson _ _ req st st []) by (unfold parse; now rewrite Hj).
  rewrite (run_use_raise SUrlencoded _ _ req st st [] e) by (unfold parse; now rewrite Hu).
  rewrite !run_skip by reflexivity.
  erewrite run_on_error by reflexivity.
  rewrite !app_nil_r, <- !app_assoc. reflexivity.
Qed.

(** X3: a request whose origin the CORS check refuses is answered by the
    error handler of [./middleware/errorHandler], which is given the error
    "Not allowed by CORS"; no body parser, no static directory, no router
    and not the 404 responder run for it. *)
Theorem X3_refused_origin_goes_to_error_handler (st : AppState) (req : Request) :
  within_quota st req ->
  Cors.origin env (originHeader req) <> Cors.Pass ->
  response (serve' st req) = errorHandler {| err_message := "Not allowed by CORS" |} req /\
  stages (serve' st req) = limiter_stages (path req) ++ [SMorgan; SCors; SErrorHandler].
Proof.
  intros Hq Hcors. destruct (serve_within st req Hq) as (st' & hk & ->).
  destruct (Cors.origin env (originHeader req)) as [| msg] eqn:Ho; [congruence |].
  pose proof (origin_fail_message _ _ Ho) as ->.
  rewrite (run_below_refused _ _ _ _ _ Ho). split; reflexivity.
Qed.

(** X4: a preflight ([OPTIONS]) whose origin the CORS check accepts is
    answered by the CORS stage itself with status 200 and an empty body,
    whatever its path: no body parser, static directory, router or inline
    route sees it. *)
Theorem X4_preflight_is_answered_by_cors (st : AppState) (req : Request) :
  within_quota st req ->
  Cors.origin env (originHeader req) = Cors.Pass ->
  method req = OPTIONS ->
  response (serve' st req) = {| status := 200; body := BEmpty |} /\
  stages (serve' st req) = limiter_stages (path req) ++ [SMorgan; SCors].
Proof.
  intros Hq Hcors Hm. destruct (serve_within st req Hq) as (st' & hk & ->).
  rewrite run_below_preflight by assumption. split; reflexivity.
Qed.

(** X5: a request whose body one of the two body parsers rejects is
    answered by the error handler with the parser's error; the second
    parser is not tried after the first has failed, and no static
    directory, router, inline route or the 404 responder runs. *)
Theorem X5_rejected_body_goes_to_error_handler (st : AppState) (req : Request) :
  within_quota st req ->
  Cors.origin env (originHeader req) = Cors.Pass ->
  method req <> OPTIONS ->
  (forall e, bodyParser JsonParser req = Some e ->
     response (serve' st req) = errorHandler e req /\
     stages (serve' st req)
     = limiter_stages (path req) ++ [SMorgan; SCors; SJson; SErrorHandler]) /\
  (forall e, bodyParser JsonParser req = None ->
     bodyParser UrlencodedParser req = Some e ->
     response (serve' st req) = errorHandler e req /\
     stages (serve' st req)
     = limiter_stages (path req) ++ [SMorgan; SCors; SJson; SUrlencoded; SErrorHandler]).
Proof.
  intros Hq Hcors Hm. destruct (serve_within st req Hq) as (st' & hk & ->).
  split.
  - intros e Hj. rewrite (run_below_json_error _ _ _ _ e) by assumption.
    split; reflexivity.
  - intros e Hj Hu. rewrite (run_below_urlencoded_error _ _ _ _ e) by assumption.
    split; reflexivity.
Qed.

Lemma serve_through (st : AppState) (req : Request) :
  let_through env bodyParser st req ->
  (auth_path (path req) = true -> auth_used st req < 5) ->
  exists st' hk,
    serve' st req =
    finish (run dispatch' req st' None hk
                (limiter_stages (path req) ++ [SMorgan; SCors; SJson; SUrlencoded])).
Proof.
  intros (Hgen & Hcors & Hm & Hj & Hu) Hauth.
  destruct (serve_within st req (conj Hgen Hauth)) as (st' & hk & ->).
  exists st', hk. now rewrite run_below_through.
Qed.

Ltac apart Hm m' :=
  match type of Hm with
  | Path.mounted ?m ?p = true =>
      first [ pose proof (mounted_diverge m m' p eq_refl Hm) | idtac ]
  end.

Ltac apart_all Hm :=
  apart Hm "/api/uploads"; apart Hm "/api/uploads/leaves";
  apart Hm "/api/auth"; apart Hm "/api/attendance"; apart Hm "/api/dashboard";
  apart Hm "/api/badges"; apart Hm "/api/profile"; apart Hm "/api/leaves";
  apart Hm "/api/leave-types"; apart Hm "/api/notifications";
  apart Hm "/api/leave-analytics".

Ltac pass_by :=
  repeat lazymatch goal with
  | |- context [run (UseAt ?s ?m' ?h :: ?ls) ?req ?st None ?hooks ?trace] =>
      lazymatch goal with
      | H : Path.mounted m' (path req) = false |- _ =>
          rewrite (run_use_at_skip s m' h ls req st hooks trace H)
      end
  | |- context [run (Get ?s ?r ?h :: ?ls) ?req ?st None ?hooks ?trace] =>
      lazymatch goal with
      | H : Path.route_matches r (path req) = false |- _ =>
          rewrite (run_get_skip s r h ls req st hooks trace
                     (proj2 (andb_false_iff _ _) (or_intror H)))
      end
  end.

Lemma run_dispatch_router (m : string) (st : AppState) (req : Request) hooks trace :
  m ∈ router_mounts ->
  Path.mounted m (path req) = true ->
  run dispatch' req st None hooks trace =
  {| run_response := match downstream (SRouter m) req with
                     | Respond r => r
                     | Next => not_found req
                     | NextErr e => errorHandler e req
                     end;
     run_state := st; run_hooks := hooks;
     run_stages := trace ++ SRouter m ::
                   match downstream (SRouter m) req with
                   | Respond _ => []
                   | Next => [SNotFound]
                   | NextErr _ => [SErrorHandler]
                   end |}.
Proof.
  intros Hin Hm.
  pose proof (router_not_root _ _ Hin Hm) as Hroot.
  unfold router_mounts in Hin. rewrite !elem_of_cons in Hin.
  assert (Path.route_matches "/api/health" (path req) = false) as Hhealth.
  { repeat (destruct Hin as [-> | Hin];
            [ match type of Hm with
              | Path.mounted ?m ?p = true =>
                  exact (route_diverge m "/api/health" p eq_refl Hm)
              end |]).
    now apply elem_of_nil in Hin. }
  repeat (destruct Hin as [-> | Hin];
    [ apart_all Hm; unfold dispatch; cbn [drop app]; pass_by;
      rewrite run_use_at by exact Hm;
      destruct (downstream _ req) as [r | | e] eqn:Hd;
      [ erewrite run_use_respond by (unfold collaborator; rewrite Hd; reflexivity);
        rewrite app_nil_r; reflexivity
      | erewrite run_use_next by (unfold collaborator; rewrite Hd; reflexivity);
        pass_by; rewrite run_skip by reflexivity;
        erewrite run_use_respond by reflexivity;
        rewrite !app_nil_r, <- app_assoc; reflexivity
      | erewrite run_use_raise by (unfold collaborator; rewrite Hd; reflexivity);
        rewrite !run_skip by reflexivity;
        erewrite run_on_error by reflexivity;
        rewrite !app_nil_r, <- app_assoc; reflexivity ]
    |]).
  now apply elem_of_nil in Hin.
Qed.

(** X6: a request under the mount point of one of the nine routers, which
    the admission stages let through, is dispatched to that router alone:
    no static directory, no other router and no inline route sees it.  What
    the router does decides the answer: its own response, the 404 body when
    it calls [next()], the error handler's answer when it raises. *)
Theorem X6_router_dispatch (st : AppState) (req : Request) (m : string) :
  m ∈ router_mounts ->
  Path.mounted m (path req) = true ->
  let_through env bodyParser st req ->
  (auth_path (path req) = true -> auth_used st req < 5) ->
  response (serve' st req) =
    match downstream (SRouter m) req with
    | Respond r => r
    | Next => not_found req
    | NextErr e => errorHandler e req
    end /\
  stages (serve' st req) =
    limiter_stages (path req) ++ [SMorgan; SCors; SJson; SUrlencoded; SRouter m] ++
    match downstream (SRouter m) req with
    | Respond _ => []
    | Next => [SNotFound]
    | NextErr _ => [SErrorHandler]
    end.
Proof.
  intros Hin Hm Hlet Hauth.
  destruct (serve_through st req Hlet Hauth) as (st' & hk & ->).
  rewrite (run_dispatch_router m) by assumption.
  split; [reflexivity |]. cbn [finish stages run_stages].
  rewrite <- !app_assoc. reflexivity.
Qed.






(** X8: every path under [/api/uploads/leaves] is under [/api/uploads]
    too, so the first static directory is asked first: when it has the
    file, the second directory is not consulted, and the second one gets
    the request only when the first calls [next()]. *)
Theorem X8_uploads_before_leaves (st : AppState) (req : Request) :
  let_through env bodyParser st req ->
  Path.mounted "/api/uploads/leaves" (path req) = true ->
  Path.mounted "/api/uploads" (path req) = true /\
  (forall r, downstream (SStatic "/api/uploads") req = Respond r ->
     response (serve' st req) = r /\
     stages (serve' st req)
     = limiter_stages (path req)
       ++ [SMorgan; SCors; SJson; SUrlencoded; SStatic "/api/uploads"]) /\
  (forall r, downstream (SStatic "/api/uploads") req = Next ->
     downstream (SStatic "/api/uploads/leaves") req = Respond r ->
     response (serve' st req) = r /\
     stages (serve' st req)
     = limiter_stages (path req)
       ++ [SMorgan; SCors; SJson; SUrlencoded;
           SStatic "/api/uploads"; SStatic "/api/uploads/leaves"]).
Proof.
  intros Hlet Hleaves. pose proof (leaves_under_uploads _ Hleaves) as Hup.
  split; [exact Hup |].
  assert (auth_path (path req) = true -> auth_used st req < 5) as Hauth.
  { rewrite (uploads_not_auth _ Hup). discriminate. }
  destruct (serve_through st req Hlet Hauth) as (st' & hk & ->).
  unfold dispatch. cbn [drop app]. rewrite run_use_at by exact Hup.
  split.
  - intros r Hd.
    erewrite run_use_respond by (unfold collaborator; rewrite Hd; reflexivity).
    cbn [finish response stages run_response run_stages].
    rewrite <- app_assoc. split; reflexivity.
  - intros r Hd1 Hd2.
    erewrite run_use_next by (unfold collaborator; rewrite Hd1; reflexivity).
    rewrite run_use_at by exact Hleaves.
    erewrite run_use_respond by (unfold collaborator; rewrite Hd2; reflexivity).
    cbn [finish response stages run_response run_stages].
    rewrite <- !app_assoc. split; reflexivity.
Qed.

(** The layers between the body parsers and the error handler: static
    directories, routers and the two inline routes. *)
Lemma run_routes_answer (req : Request) (ls : list Layer) :
  Forall (fun l =>
            (exists s m, l = UseAt s m (collaborator downstream s) /\
                         (s = SStatic m \/ s = SRouter m)) \/
            l = Get SRootRoute "/" root \/
            l = Get SHealthRoute "/api/health" (health env)) ls ->
  forall st hooks trace,
  exists s t,
    run_stages (run (ls ++ UseError SErrorHandler (onError errorHandler)
                        :: [Use SNotFound notFound]) req st None hooks trace)
    = trace ++ t ++ [s] /\
    answered_by env downstream bodyParser errorHandler req s
      (run_response (run (ls ++ UseError SErrorHandler (onError errorHandler)
                             :: [Use SNotFound notFound]) req st None hooks trace)).
Proof.
  induction 1 as [| l ls Hl Hls IH]; intros st hooks trace.
  - cbn [List.app]. rewrite run_skip by reflexivity.
    erewrite run_use_respond by reflexivity.
    exists SNotFound, []. split; reflexivity.
  - cbn [List.app]. destruct Hl as [(s & m & -> & Hs) | [-> | ->]].
    + destruct (Path.mounted m (path req)) eqn:Hm;
        [| rewrite run_use_at_skip by exact Hm; apply IH].
      rewrite run_use_at by exact Hm.
      destruct (downstream s req) as [r | | e] eqn:Hd.
      * erewrite run_use_respond by (unfold collaborator; rewrite Hd; reflexivity).
        exists s, []. split; [reflexivity |]. cbn [run_response].
        destruct Hs as [-> | ->]; cbn [answered_by]; split; assumption.
      * erewrite run_use_next by (unfold collaborator; rewrite Hd; reflexivity).
        destruct (IH st (hooks ++ []) (trace ++ [s])) as (s' & t & Hst & Ha).
        exists s', (s :: t). split; [| exact Ha].
        rewrite Hst, <- app_assoc. reflexivity.
      * erewrite run_use_raise by (unfold collaborator; rewrite Hd; reflexivity).
        rewrite run_raised.
        2:{ eapply Forall_impl; [exact Hls |]. cbv beta.
            intros l [(s0 & m0 & -> & _) | [-> | ->]]; discriminate. }
        exists SErrorHandler, [s]. cbn [run_stages run_response].
        split; [now rewrite <- app_assoc |].
        cbn [answered_by]. exists e. split; [reflexivity |]. right. right. eauto.
    + destruct (is_get (method req) && Path.route_matches "/" (path req)) eqn:G;
        [| rewrite run_get_skip by exact G; apply IH].
      rewrite run_get by exact G. erewrite run_use_respond by reflexivity.
      exists SRootRoute, []. split; [reflexivity |]. cbn [run_response answered_by].
      apply andb_true_iff in G as [G _]. split; [exact G | reflexivity].
    + destruct (is_get (method req) && Path.route_matches "/api/health" (path req)) eqn:G;
        [| rewrite run_get_skip by exact G; apply IH].
      rewrite run_get by exact G. erewrite run_use_respond by reflexivity.
      exists SHealthRoute, []. split; [reflexivity |]. cbn [run_response answered_by].
      apply andb_true_iff in G as [G _]. split; [exact G | reflexivity].
Qed.

Lemma run_dispatch_answer (req : Request) (st : AppState) hooks trace :
  exists s t,
    run_stages (run dispatch' req st None hooks trace) = trace ++ t ++ [s] /\
    answered_by env downstream bodyParser errorHandler req s
      (run_response (run dispatch' req st None hooks trace)).
Proof.
  rewrite dispatch_split. apply run_routes_answer.
  unfold dispatch. cbn [drop take app].
  repeat (apply Forall_cons; split;
          [ first [ left; do 2 eexists; split; [reflexivity | auto]
                  | right; left; reflexivity
                  | right; right; reflexivity ] |]).
  constructor.
Qed.

Lemma run_below_answer (req : Request) (st : AppState) hooks trace :
  exists s t,
    run_stages (run below req st None hooks trace) = trace ++ t ++ [s] /\
    answered_by env downstream bodyParser errorHandler req s
      (run_response (run below req st None hooks trace)).
Proof.
  destruct (Cors.origin env (originHeader req)) as [| msg] eqn:Ho.
  2:{ pose proof (origin_fail_message _ _ Ho) as ->.
      rewrite (run_below_refused _ _ _ _ _ Ho).
      exists SErrorHandler, [SMorgan; SCors]. split; [reflexivity |].
      cbn [run_response answered_by]. eexists. split; [reflexivity |].
      left. split; [reflexivity | congruence]. }
  assert (method req = OPTIONS \/ method req <> OPTIONS) as [Hm | Hm]
    by (destruct (method req); auto; right; discriminate).
  { rewrite run_below_preflight by assumption.
    exists SCors, [SMorgan]. split; [reflexivity |].
    cbn [run_response answered_by]. split; [exact Hm | reflexivity]. }
  destruct (bodyParser JsonParser req) as [e |] eqn:Hj.
  { rewrite (run_below_json_error _ _ _ _ e) by assumption.
    exists SErrorHandler, [SMorgan; SCors; SJson]. split; [reflexivity |].
    cbn [run_response answered_by]. exists e. split; [reflexivity |].
    right. left. eauto. }
  destruct (bodyParser UrlencodedParser req) as [e |] eqn:Hu.
  { rewrite (run_below_urlencoded_error _ _ _ _ e) by assumption.
    exists SErrorHandler, [SMorgan; SCors; SJson; SUrlencoded]. split; [reflexivity |].
    cbn [run_response answered_by]. exists e. split; [reflexivity |].
    right. left. eauto. }
  rewrite run_below_through by assumption.
  destruct (run_dispatch_answer req st hooks
              (trace ++ [SMorgan; SCors; SJson; SUrlencoded])) as (s & t & Hst & Ha).
  exists s, ([SMorgan; SCors; SJson; SUrlencoded] ++ t).
  split; [| exact Ha]. rewrite Hst, <- !app_assoc. reflexivity.
Qed.

Lemma last_answer (o : Outcome) (trace t : list Stage) (s : Stage) :
  stages o = trace ++ t ++ [s] -> last (stages o) = Some s.
Proof. intros ->. rewrite app_assoc. apply last_snoc. Qed.

(** X9: every request is answered by a layer of the stack, the last stage
    it runs through, and never by Express's built-in final handler: by a
    limiter with its rejection, by the CORS stage if it is a preflight, by
    a static directory or a router its path lies under, by one of the two
    inline routes, by the error handler for an error raised by the CORS
    check, a body parser, a static directory or a router, or by the 404
    responder.  Helmet, the logger and the body parsers answer nothing. *)
Theorem X9_every_request_is_answered (st : AppState) (req : Request) :
  exists s, last (stages (serve' st req)) = Some s /\
            answered_by env downstream bodyParser errorHandler req s
                        (response (serve' st req)).
Proof.
  unfold serve, handle. rewrite run_app.
  destruct (Path.mounted "/api/" (path req)) eqn:Hapi.
  - cbn zeta. rewrite general_decision.
    destruct (100 <=? general_used st req).
    { exists SLimiter. split; reflexivity. }
    fold (counted_general st req).
    destruct (auth_path (path req)) eqn:Hauth.
    + rewrite auth_decision. destruct (5 <=? auth_used st req).
      * exists (auth_stage (path req)). split; [reflexivity |].
        cbn [finish response run_response]. unfold auth_stage, auth_path in *.
        destruct (Path.mounted "/api/auth/login" (path req)) eqn:Hlogin;
          cbn [answered_by].
        -- split; [exact Hlogin | reflexivity].
        -- split; [exact Hauth | reflexivity].
      * match goal with
        | |- context [run below req ?s None ?h ?tr] =>
            destruct (run_below_answer req s h tr) as (s' & t & Hst & Ha)
        end.
        exists s'. split; [| exact Ha]. eapply last_answer. exact Hst.
    + destruct (run_below_answer req (counted_general st req) [] [SHelmet; SLimiter])
        as (s' & t & Hst & Ha).
      exists s'. split; [| exact Ha]. eapply last_answer. exact Hst.
  - destruct (run_below_answer req st [] [SHelmet]) as (s' & t & Hst & Ha).
    exists s'. split; [| exact Ha]. eapply last_answer. exact Hst.
Qed.

(** X10: the limiters' stores change exactly for the requests whose path
    lies under [/api] (the mount point of the general limiter, matched
    without regard to case), and exactly those requests run through a
    rate-limiting stage: for every other request the stores stay as they
    were. *)
Theorem X10_limiters_touch_api_only (st : AppState) (req : Request) :
  (final (serve' st req) = st <-> Path.mounted "/api/" (path req) = false) /\
  ((exists s, s ∈ stages (serve' st req) /\ phase_of s = 1%nat)
   <-> Path.mounted "/api/" (path req) = true).
Proof.
  assert (Path.mounted "/api/" (path req) = false ->
          final (serve' st req) = st /\
          forall s, s ∈ stages (serve' st req) -> phase_of s <> 1%nat) as Hout.
  { intros Hapi.
    destruct (serve_outside env downstream bodyParser errorHandler requestWasSuccessful
                st req Hapi) as (Hf & t & Ht).
    split; [exact Hf |]. intros s Hs.
    pose proof (sublist_sorted _ _ _
                  (serve_stages_sublist env downstream bodyParser errorHandler
                     requestWasSuccessful st req) pipeline_order_sorted) as Hsorted.
    rewrite Ht in Hs, Hsorted.
    apply elem_of_cons in Hs as [-> | Hs]; [discriminate |].
    apply elem_of_cons in Hs as [-> | Hs]; [discriminate |].
    apply StronglySorted_inv in Hsorted as [Hsorted _].
    apply StronglySorted_inv in Hsorted as [_ Hall].
    rewrite Forall_forall in Hall. destruct (Hall s Hs) as [Hle _].
    simpl in Hle. lia. }
  assert (Path.mounted "/api/" (path req) = true ->
          SLimiter ∈ stages (serve' st req) /\ final (serve' st req) <> st) as Hin.
  { intros Hapi.
    destruct (serve_api_counts env downstream bodyParser errorHandler
                requestWasSuccessful st req Hapi) as [Hs Hc].
    split; [exact Hs |]. intros Hf. rewrite Hf in Hc. lia. }
  destruct (Path.mounted "/api/" (path req)).
  - destruct (Hin eq_refl) as [Hs Hf]. split; split; try congruence.
    intros _. exists SLimiter. split; [exact Hs | reflexivity].
  - destruct (Hout eq_refl) as [Hf Hs]. split; split; try congruence.
    intros (s & Hin' & Hp). now destruct (Hs s Hin').
Qed.

(** The auth limiter's store holds for another client what it held. *)
Lemma serve_auth_other (st : AppState) (req : Request) (k : string) :
  k <> ip req ->
  authStore (final (serve' st req)) !! k = authStore st !! k.
Proof.
  intros Hk. destruct (Path.mounted "/api/" (path req)) eqn:Hapi.
  2:{ destruct (serve_outside env downstream bodyParser errorHandler
                  requestWasSuccessful st req Hapi) as (-> & _). reflexivity. }
  destruct (Z.le_gt_cases 100 (general_used st req)) as [Hu | Hu].
  { rewrite serve_general_reject by assumption. reflexivity. }
  destruct (auth_path (path req)) eqn:Hauth.
  - rewrite serve_auth_store by (assumption || lia). cbn zeta.
    destruct (requestWasSuccessful _).
    + unfold RateLimit.forgive. rewrite lookup_alter_ne by congruence.
      apply hit_other. congruence.
    + apply hit_other. congruence.
  - destruct (serve_general_pass env downstream bodyParser errorHandler
                requestWasSuccessful st req Hapi ltac:(lia) Hauth) as (-> & _).
    reflexivity.
Qed.

Lemma other_client (req : Request) (k : string) :
  k <> ip req -> from_client_api k req = false.
Proof.
  intros Hk. unfold from_client_api. apply andb_false_iff. left.
  apply String.eqb_neq. congruence.
Qed.

(** X11: a request touches the counters of its own client only: in both
    stores the window of every other client is after the request what it
    was before. *)
Theorem X11_other_clients_untouched (st : AppState) (req : Request) (k : string) :
  k <> ip req ->
  generalStore (final (serve' st req)) !! k = generalStore st !! k /\
  authStore (final (serve' st req)) !! k = authStore st !! k.
Proof.
  intros Hk. split.
  - apply (serve_general_other env downstream bodyParser errorHandler
             requestWasSuccessful).
    now apply other_client.
  - now apply serve_auth_other.
Qed.






End AdmissionFacts.

(** ** Start-up and shutdown: what is counted and why the process ends *)

Section ShutdownFacts.

Import Lifecycle History.

Variable env : Env.

Lemma tally_app f (a b : list Entry) : tally f (a ++ b) = (tally f a + tally f b)%nat.
Proof. unfold tally. now rewrite List.filter_app, length_app. Qed.

Lemma tally_cons f (x : Entry) (a : list Entry) :
  tally f (x :: a) = ((if f x then 1 else 0) + tally f a)%nat.
Proof. unfold tally. cbn [List.filter]. now destruct (f x). Qed.

Lemma tally_db_closes (n : nat) : tally is_db_close (map Act (repeat DbClose n)) = n.
Proof. induction n as [| n IH]; [reflexivity |]. cbn [repeat map]. rewrite tally_cons, IH. reflexivity. Qed.

Lemma tally_other_db_closes f (n : nat) :
  f (Act DbClose) = false -> tally f (map Act (repeat DbClose n)) = 0%nat.
Proof.
  intros Hf. induction n as [| n IH]; [reflexivity |].
  cbn [repeat map]. now rewrite tally_cons, IH, Hf.
Qed.

(** What the counters of the process have to do with its history. *)
Lemma step_accounts p h e p' acts :
  inv env p h ->
  step env p e = Some (p', acts) ->
  (tally is_open h = inflight p + tally is_done h)%nat /\
  (tally is_server_close h = closeWaiters p + tally is_db_close h)%nat /\
  (phase p <> Killed -> tally is_sigterm h = tally is_server_close h) /\
  ((0 < dbWaiters p)%nat -> inflight p = 0%nat /\ accepting p = false) /\
  (phase p = Exited 0 -> inflight p = 0%nat) ->
  let h' := h ++ Ev e :: map Act acts in
  (tally is_open h' = inflight p' + tally is_done h')%nat /\
  (tally is_server_close h' = closeWaiters p' + tally is_db_close h')%nat /\
  (phase p' <> Killed -> tally is_sigterm h' = tally is_server_close h') /\
  ((0 < dbWaiters p')%nat -> inflight p' = 0%nat /\ accepting p' = false) /\
  (phase p' = Exited 0 -> inflight p' = 0%nat).
Proof.
  intros I Hstep (Hopen & Hclose & Hsig & Hdb & Hzero). cbv zeta.
  destruct p as [ph acc inf cw dw].
  unfold step in Hstep. cbn [phase accepting inflight closeWaiters dbWaiters] in *.
  destruct ph, e; try discriminate Hstep;
    try (rewrite (inv_connecting _ _ _ I eq_refl) in *; clear I);
    repeat match type of Hstep with
           | (if ?b then _ else _) = _ => destruct b eqn:?
           | match ?n with _ => _ end = _ => destruct n eqn:?
           end; try discriminate Hstep;
    injection Hstep as <- <-; unfold exited;
    cbn [phase accepting inflight closeWaiters dbWaiters];
    rewrite !tally_app, !tally_cons; cbn [map];
    rewrite ?tally_cons, ?tally_db_closes,
      ?(tally_other_db_closes is_open), ?(tally_other_db_closes is_done),
      ?(tally_other_db_closes is_sigterm), ?(tally_other_db_closes is_server_close)
      by reflexivity;
    cbn [is_open is_done is_sigterm is_server_close is_db_close tally List.filter length]
      in *;
    repeat split; intros;
    try match goal with
        | H : ?a <> Killed -> _ |- _ => specialize (H ltac:(discriminate))
        end;
    try match goal with
        | H : (0 < _)%nat -> _ /\ _ |- _ => destruct H as [? ?]; [lia |]
        end;
    subst; first [discriminate | lia | congruence].
Qed.

Lemma not_among_actions (e : Event) (acts : list Action) : Ev e ∉ map Act acts.
Proof. intros (a & H & _)%list_elem_of_fmap. discriminate H. Qed.

(** Why a process has ended. *)
Lemma step_causes p h e p' acts :
  inv env p h ->
  step env p e = Some (p', acts) ->
  (phase p = Exited 0 <-> Ev DbClosed ∈ h) /\
  (phase p = Exited 1 ->
   (exists msg, Ev (ConnectRejected msg) ∈ h) \/ (exists code, Ev (ServerError code) ∈ h)) /\
  (forall c, phase p = Exited c -> c = 0 \/ c = 1) /\
  (phase p = Killed -> h = [Act (MongooseConnect (uri env)); Ev Sigterm]) ->
  let h' := h ++ Ev e :: map Act acts in
  (phase p' = Exited 0 <-> Ev DbClosed ∈ h') /\
  (phase p' = Exited 1 ->
   (exists msg, Ev (ConnectRejected msg) ∈ h') \/ (exists code, Ev (ServerError code) ∈ h')) /\
  (forall c, phase p' = Exited c -> c = 0 \/ c = 1) /\
  (phase p' = Killed -> h' = [Act (MongooseConnect (uri env)); Ev Sigterm]).
Proof.
  intros I Hstep ([_ Hdone] & _ & _ & _). cbv zeta.
  assert (Ev DbClosed ∉ h) as Hnot.
  { intros H. apply Hdone in H. unfold step in Hstep. now rewrite H in Hstep. }
  clear Hdone.
  assert (forall x, x <> DbClosed -> Ev DbClosed ∉ h ++ Ev x :: map Act acts) as Hfresh.
  { intros x Hx [H | H]%elem_of_app; [now apply Hnot |].
    apply elem_of_cons in H as [H | H]; [congruence |].
    now apply not_among_actions in H. }
  destruct p as [ph acc inf cw dw].
  unfold step in Hstep. cbn [phase accepting inflight closeWaiters dbWaiters] in *.
  destruct ph, e; try discriminate Hstep;
    try (rewrite (inv_connecting _ _ _ I eq_refl) in *; clear I);
    repeat match type of Hstep with
           | (if ?b then _ else _) = _ => destruct b eqn:?
           | match ?n with _ => _ end = _ => destruct n eqn:?
           end; try discriminate Hstep;
    injection Hstep as <- <-; unfold exited;
    cbn [phase accepting inflight closeWaiters dbWaiters];
    (split; [split; [intros [=] | intros H] | split; [intros [=] | split; [intros ? [=] | intros [=]]]]);
    subst;
    first
      [ exfalso; refine (Hfresh _ _ H); discriminate
      | reflexivity
      | apply elem_of_app; right; apply elem_of_cons; left; reflexivity
      | left; eexists; apply elem_of_app; right; apply elem_of_cons; left; reflexivity
      | right; eexists; apply elem_of_app; right; apply elem_of_cons; left; reflexivity
      | tauto ].
Qed.

Lemma exec_keeps (Q : Proc -> list Entry -> Prop) :
  (forall p h e p' acts,
     inv env p h -> step env p e = Some (p', acts) ->
     Q p h -> Q p' (h ++ Ev e :: map Act acts)) ->
  forall evs p h p' h',
  inv env p h -> Q p h -> exec env p h evs = Some (p', h') -> Q p' h'.
Proof.
  intros Hstep. induction evs as [| e evs IH]; intros p h p' h' I HQ Hrun;
    cbn [exec] in Hrun.
  - now injection Hrun as <- <-.
  - destruct (step env p e) as [[p1 acts] |] eqn:Hs; [| discriminate].
    apply (IH _ _ _ _ (step_inv env _ _ _ _ _ I Hs) (Hstep _ _ _ _ _ I Hs HQ) Hrun).
Qed.

Lemma start_accounts evs p h :
  start env evs = Some (p, h) ->
  (tally is_open h = inflight p + tally is_done h)%nat /\
  (tally is_server_close h = closeWaiters p + tally is_db_close h)%nat /\
  (phase p <> Killed -> tally is_sigterm h = tally is_server_close h) /\
  ((0 < dbWaiters p)%nat -> inflight p = 0%nat /\ accepting p = false) /\
  (phase p = Exited 0 -> inflight p = 0%nat).
Proof.
  unfold start.
  apply (exec_keeps (fun p h =>
    (tally is_open h = inflight p + tally is_done h)%nat /\
    (tally is_server_close h = closeWaiters p + tally is_db_close h)%nat /\
    (phase p <> Killed -> tally is_sigterm h = tally is_server_close h) /\
    ((0 < dbWaiters p)%nat -> inflight p = 0%nat /\ accepting p = false) /\
    (phase p = Exited 0 -> inflight p = 0%nat))).
  - intros p0 h0 e p1 acts I Hs HQ. exact (step_accounts _ _ _ _ _ I Hs HQ).
  - apply boot_inv.
  - cbn. repeat split; intros; first [reflexivity | lia | discriminate].
Qed.

Lemma start_causes evs p h :
  start env evs = Some (p, h) ->
  (phase p = Exited 0 <-> Ev DbClosed ∈ h) /\
  (phase p = Exited 1 ->
   (exists msg, Ev (ConnectRejected msg) ∈ h) \/ (exists code, Ev (ServerError code) ∈ h)) /\
  (forall c, phase p = Exited c -> c = 0 \/ c = 1) /\
  (phase p = Killed -> h = [Act (MongooseConnect (uri env)); Ev Sigterm]).
Proof.
  unfold start.
  apply (exec_keeps (fun p h =>
    (phase p = Exited 0 <-> Ev DbClosed ∈ h) /\
    (phase p = Exited 1 ->
     (exists msg, Ev (ConnectRejected msg) ∈ h) \/
     (exists code, Ev (ServerError code) ∈ h)) /\
    (forall c, phase p = Exited c -> c = 0 \/ c = 1) /\
    (phase p = Killed -> h = [Act (MongooseConnect (uri env)); Ev Sigterm]))).
  - intros p0 h0 e p1 acts I Hs HQ. exact (step_causes _ _ _ _ _ I Hs HQ).
  - apply boot_inv.
  - cbn [boot fst snd phase map]. repeat split; try discriminate.
    intros H. apply elem_of_cons in H as [H | H]; [discriminate H |].
    now apply elem_of_nil in H.
Qed.


(** X14: at every moment the connections accepted so far are those in
    flight and those finished; and when the process exits with code 0
    every connection it ever accepted has been finished: the graceful
    shutdown cuts no request off. *)
Theorem X14_graceful_exit_drains evs p h :
  start env evs = Some (p, h) ->
  (tally is_open h = inflight p + tally is_done h)%nat /\
  (phase p = Exited 0 -> tally is_open h = tally is_done h).
Proof.
  intros Hrun. destruct (start_accounts _ _ _ Hrun) as (Hopen & _ & _ & _ & Hzero).
  split; [exact Hopen |]. intros H. rewrite Hopen, (Hzero H). reflexivity.
Qed.

(** X15: the handler of SIGTERM is installed only once the database
    connection stands.  A signal that arrives before ends the process with
    nothing closed and no exit code.  From then on every signal calls
    [server.close] once more, and every such call leads to one call of
    [mongoose.connection.close] when the listener has closed: a second
    signal closes the database connection a second time. *)
Theorem X15_one_close_per_signal evs p h :
  start env evs = Some (p, h) ->
  (phase p = Killed -> h = [Act (MongooseConnect (uri env)); Ev Sigterm]) /\
  (phase p <> Killed -> tally is_server_close h = tally is_sigterm h) /\
  (tally is_db_close h + closeWaiters p = tally is_server_close h)%nat.
Proof.
  intros Hrun. destruct (start_accounts _ _ _ Hrun) as (_ & Hclose & Hsig & _).
  destruct (start_causes _ _ _ Hrun) as (_ & _ & _ & Hkilled).
  split; [exact Hkilled |]. split; [| lia].
  intros H. symmetry. exact (Hsig H).
Qed.

End ShutdownFacts.

(** ** Concrete runs of the further properties *)

(** X3 in production: a health probe from a foreign origin. *)
Lemma X3_refused_origin_goes_to_error_handler_witness :
  response (serve production_env no_routes lenient_parsers plain_errorHandler below_400
                  empty_state (request GET "/api/health" (Some "http://evil.example") 0))
  = {| status := 500;
       body := BJson [("success", JBool false);
                      ("error", JString "Not allowed by CORS")] |} /\
  stages (serve production_env no_routes lenient_parsers plain_errorHandler below_400
                empty_state (request GET "/api/health" (Some "http://evil.example") 0))
  = [SHelmet; SLimiter; SMorgan; SCors; SErrorHandler].
Proof.
  apply (X3_refused_origin_goes_to_error_handler production_env no_routes lenient_parsers
           plain_errorHandler below_400 empty_state
           (request GET "/api/health" (Some "http://evil.example") 0)).
  - split; intros _; vm_compute; reflexivity.
  - vm_compute. discriminate.
Defined.

(** X4 in production: a preflight from a listed origin to a path nobody
    serves. *)
Lemma X4_preflight_is_answered_by_cors_witness :
  response (serve production_env no_routes lenient_parsers plain_errorHandler below_400
                  empty_state (request OPTIONS "/nope" (Some "http://localhost:5173") 0))
  = {| status := 200; body := BEmpty |} /\
  stages (serve production_env no_routes lenient_parsers plain_errorHandler below_400
                empty_state (request OPTIONS "/nope" (Some "http://localhost:5173") 0))
  = [SHelmet; SMorgan; SCors].
Proof.
  apply (X4_preflight_is_answered_by_cors production_env no_routes lenient_parsers
           plain_errorHandler below_400 empty_state
           (request OPTIONS "/nope" (Some "http://localhost:5173") 0)).
  - split; intros H; vm_compute in H; discriminate H.
  - vm_compute. reflexivity.
  - reflexivity.
Defined.

(** X5 on a login whose body the JSON parser rejects, and on one the form
    parser rejects. *)
Lemma X5_rejected_body_goes_to_error_handler_witness :
  stages (serve bare_env welcoming_login strict_json plain_errorHandler below_400
                empty_state (login 0))
  = [SHelmet; SLimiter; SAuthLimiter "/api/auth/login"; SMorgan; SCors; SJson;
     SErrorHandler] /\
  stages (serve bare_env welcoming_login strict_urlencoded plain_errorHandler below_400
                empty_state (login 0))
  = [SHelmet; SLimiter; SAuthLimiter "/api/auth/login"; SMorgan; SCors; SJson;
     SUrlencoded; SErrorHandler].
Proof.
  split.
  - refine (proj2 (proj1 (X5_rejected_body_goes_to_error_handler bare_env welcoming_login
                            strict_json plain_errorHandler below_400 empty_state (login 0)
                            _ eq_refl _) _ eq_refl)).
    + split; intros _; vm_compute; reflexivity.
    + discriminate.
  - refine (proj2 (proj2 (X5_rejected_body_goes_to_error_handler bare_env welcoming_login
                            strict_urlencoded plain_errorHandler below_400 empty_state
                            (login 0) _ eq_refl _) _ eq_refl eq_refl)).
    + split; intros _; vm_compute; reflexivity.
    + discriminate.
Defined.

(** X6 on a login: the auth router answers, nobody else is asked. *)
Lemma X6_router_dispatch_witness :
  response (serve bare_env failing_login lenient_parsers plain_errorHandler below_400
                  empty_state (login 0))
  = {| status := 401;
       body := BJson [("success", JBool false);
                      ("error", JString "Invalid credentials")] |} /\
  stages (serve bare_env failing_login lenient_parsers plain_errorHandler below_400
                empty_state (login 0))
  = [SHelmet; SLimiter; SAuthLimiter "/api/auth/login"; SMorgan; SCors; SJson;
     SUrlencoded; SRouter "/api/auth"].
Proof.
  apply (X6_router_dispatch bare_env failing_login lenient_parsers plain_errorHandler
           below_400 empty_state (login 0) "/api/auth").
  - apply elem_of_cons. left. reflexivity.
  - reflexivity.
  - repeat split; first [reflexivity | discriminate].
  - intros _. vm_compute. reflexivity.
Defined.


(** X8 on a file under [/api/uploads/leaves]: the directory [uploads]
    serves it when it has it, the directory [uploads/leaves] only when
    [uploads] has not. *)
Lemma X8_uploads_before_leaves_witness :
  stages (serve bare_env uploads_has_all lenient_parsers plain_errorHandler below_400
                empty_state (request GET "/api/uploads/leaves/note.pdf" None 0))
  = [SHelmet; SLimiter; SMorgan; SCors; SJson; SUrlencoded; SStatic "/api/uploads"] /\
  stages (serve bare_env leaves_has_all lenient_parsers plain_errorHandler below_400
                empty_state (request GET "/api/uploads/leaves/note.pdf" None 0))
  = [SHelmet; SLimiter; SMorgan; SCors; SJson; SUrlencoded;
     SStatic "/api/uploads"; SStatic "/api/uploads/leaves"].
Proof.
  split.
  - refine (proj2 (proj1 (proj2 (X8_uploads_before_leaves bare_env uploads_has_all
                                   lenient_parsers plain_errorHandler below_400 empty_state
                                   (request GET "/api/uploads/leaves/note.pdf" None 0)
                                   _ eq_refl)) _ eq_refl)).
    repeat split; first [reflexivity | discriminate].
  - refine (proj2 (proj2 (proj2 (X8_uploads_before_leaves bare_env leaves_has_all
                                   lenient_parsers plain_errorHandler below_400 empty_state
                                   (request GET "/api/uploads/leaves/note.pdf" None 0)
                                   _ eq_refl)) _ eq_refl eq_refl)).
    repeat split; first [reflexivity | discriminate].
Defined.

(** X11 on a failed login: the counters of another address stay unset. *)
Lemma X11_other_clients_untouched_witness :
  generalStore (final (serve bare_env failing_login lenient_parsers plain_errorHandler
                             below_400 empty_state (login 0))) !! "198.51.100.9"
  = None /\
  authStore (final (serve bare_env failing_login lenient_parsers plain_errorHandler
                          below_400 empty_state (login 0))) !! "198.51.100.9"
  = None.
Proof.
  apply (X11_other_clients_untouched bare_env failing_login lenient_parsers
           plain_errorHandler below_400 empty_state (login 0) "198.51.100.9").
  discriminate.
Defined.



(** X14 on the graceful run: the three connections it accepted are
    finished when it exits. *)
Lemma X14_graceful_exit_drains_witness :
  tally is_open graceful_history = 3%nat /\
  tally is_open graceful_history = tally is_done graceful_history.
Proof.
  split; [reflexivity |].
  exact (proj2 (X14_graceful_exit_drains bare_env graceful_run _ graceful_history eq_refl)
           eq_refl).
Defined.

(** X15 on a process signalled twice: it closes the listener twice and the
    database connection twice. *)
Lemma X15_one_close_per_signal_witness :
  tally is_sigterm impatient_history = 2%nat /\
  tally is_server_close impatient_history = tally is_sigterm impatient_history /\
  (tally is_db_close impatient_history + 0 = tally is_server_close impatient_history)%nat.
Proof.
  split; [reflexivity |].
  pose proof (X15_one_close_per_signal bare_env impatient_run _ impatient_history eq_refl)
    as (_ & Hsig & Hdb).
  split; [apply Hsig; discriminate | exact Hdb].
Defined.
